(** * Offline replication layer of territory-mapper

    A shallow embedding of [src/app/lib/db/replication/supabase.ts] (pull,
    push, bidirectional sync, the sync orchestrator and the realtime
    handler) and of the store opener of [src/app/lib/db/rxdb/index.ts],
    followed by the properties of the replication contract.

    Conventions of the embedding:
    - a document is a record with the three fields the replication code
      reads ([id], [updated_at], [congregation_id]) and a finite map for
      every other field of the index signature [[key: string]: unknown];
    - an RxDB collection is a finite map from primary key to document;
    - the module-level [Map] of replication states is a finite map keyed
      by collection name;
    - [async] functions are functions in a state-and-rejection monad over
      the environment (replication states, local database, remote store);
      [await] is the monadic bind, a rejected promise is [Rejected];
    - a property that may be missing or [null] keeps the three cases apart
      ([Undefined], [Null], [Present]), since [new Date(undefined)] is an
      invalid date and [new Date(null)] is the epoch;
    - [Date.parse] is a parameter [Date_parse], [None] being NaN, and the
      remote ordering of the [updated_at] column is a parameter
      [timestamptz]. *)

From stdpp Require Import sorting functions gmap strings list.

Set Default Proof Using "Type".

(** ** Data model *)

(** The union type ['territories' | 'houses' | 'assignments']. *)
Inductive CollectionName := territories | houses | assignments.

#[global] Instance CollectionName_eq_dec : EqDecision CollectionName.
Proof. solve_decision. Defined.

(** The string a collection name stands for: the key of the replication-state
    map, the remote table name and the property name in the result record. *)
Definition collection_key (c : CollectionName) : string :=
  match c with
  | territories => "territories"
  | houses => "houses"
  | assignments => "assignments"
  end.

(** Values of the fields the replication code never inspects. *)
Inductive JsValue :=
  | JNull
  | JBool (b : bool)
  | JNum (n : Z)
  | JStr (s : string)
  | JJson (serialized : string).

(** The value of a property that may be missing ([undefined]) or [null]. *)
Inductive Nullable (A : Type) := Undefined | Null | Present (a : A).
Arguments Undefined {A}.
Arguments Null {A}.
Arguments Present {A} a.

(** The string a property holds, when it holds one. *)
Definition as_string (v : Nullable string) : option string :=
  match v with
  | Present s => Some s
  | Undefined | Null => None
  end.

(** [interface ReplicationDoc { id: string; updated_at: string; [key: string]: unknown }].
    [updated_at] is optional on the local side (push reads it as
    [updated_at?: string]) and is [null] in a row fetched from the remote
    table when the column is empty; [congregation_id] is the tenant column,
    required by every collection schema. *)
Record ReplicationDoc := {
  id : string;
  updated_at : Nullable string;
  congregation_id : string;
  fields : gmap string JsValue;
}.

(** [interface ReplicationState]. *)
Record ReplicationState := {
  isActive : bool;
  lastSync : option string;
  pendingChanges : nat;
  error : option string;
}.

(** A thrown value: an [Error] object with its message, or anything else. *)
Inductive Thrown := ErrorObject (message : string) | OtherValue.

(** [error instanceof Error ? error.message : 'Unknown error']. *)
Definition error_message (e : Thrown) : string :=
  match e with
  | ErrorObject m => m
  | OtherValue => "Unknown error"
  end.

(** A call made on the shared Supabase client, kept in the order made. *)
Inductive Request :=
  | ReqSelect (table : CollectionName) (tenant : string) (since : option string)
  | ReqUpsert (table : CollectionName) (records : list ReplicationDoc).

(** The Remote Record Store as the client sees it: one table per collection
    (rows in no particular order, [id] the primary key), whether the next
    select or upsert on a table answers with an error, the server clock used
    by the [updated_at] trigger, and the calls received so far. *)
Record Supabase := {
  tables : CollectionName → list ReplicationDoc;
  select_error : CollectionName → option Thrown;
  upsert_error : CollectionName → option Thrown;
  server_now : string;
  requests : list Request;
}.

(** The state the replication functions run in: the module-level
    [replicationStates] map, the [db] handle they are given and the remote. *)
Record Env := {
  replicationStates : gmap string ReplicationState;
  db : CollectionName → gmap string ReplicationDoc;
  remote : Supabase;
}.

Definition set_replicationStates (f : gmap string ReplicationState → gmap string ReplicationState)
    (env : Env) : Env :=
  {| replicationStates := f (replicationStates env); db := db env; remote := remote env |}.

Definition set_collection (c : CollectionName)
    (f : gmap string ReplicationDoc → gmap string ReplicationDoc) (env : Env) : Env :=
  {| replicationStates := replicationStates env;
     db := <[c := f (db env c)]> (db env);
     remote := remote env |}.

Definition set_remote (f : Supabase → Supabase) (env : Env) : Env :=
  {| replicationStates := replicationStates env; db := db env; remote := f (remote env) |}.

Definition log_request (r : Request) (s : Supabase) : Supabase :=
  {| tables := tables s; select_error := select_error s; upsert_error := upsert_error s;
     server_now := server_now s; requests := requests s ++ [r] |}.

Definition set_table (c : CollectionName) (rows : list ReplicationDoc) (s : Supabase) : Supabase :=
  {| tables := <[c := rows]> (tables s); select_error := select_error s;
     upsert_error := upsert_error s; server_now := server_now s; requests := requests s |}.

(** ** Promises *)

Inductive Completion (A : Type) :=
  | Resolved (a : A)
  | Rejected (e : Thrown).
Arguments Resolved {A} a.
Arguments Rejected {A} e.

Definition Async (A : Type) : Type := Env → Env * Completion A.

Definition ret {A} (a : A) : Async A := λ env, (env, Resolved a).

(** [const x = await m; k]. *)
Definition bind {A B} (m : Async A) (k : A → Async B) : Async B := λ env,
  match m env with
  | (env', Resolved a) => k a env'
  | (env', Rejected e) => (env', Rejected e)
  end.

Declare Scope async_scope.
Delimit Scope async_scope with async.
Bind Scope async_scope with Async.
Notation "x ← 'await' m ; k" := (bind m (λ x, k))
  (at level 20, m at level 100, k at level 200, only parsing) : async_scope.
Notation "' x ← 'await' m ; k" := (bind m (λ x, k))
  (at level 20, x pattern, m at level 100, k at level 200, only parsing) : async_scope.
Notation "'await' m ; k" := (bind m (λ _, k))
  (at level 20, m at level 100, k at level 200, only parsing) : async_scope.
Open Scope async_scope.

Definition throw {A} (e : Thrown) : Async A := λ env, (env, Rejected e).

(** [try { body } catch (e) { handler }]. *)
Definition try_catch {A} (body : Async A) (handler : Thrown → Async A) : Async A := λ env,
  match body env with
  | (env', Rejected e) => handler e env'
  | completed => completed
  end.

(** [for (const x of l) { body }]. *)
Fixpoint for_of {A} (l : list A) (body : A → Async ()) : Async () :=
  match l with
  | [] => ret ()
  | x :: l' => await body x; for_of l' body
  end.

Definition modify (f : Env → Env) : Async () := λ env, (f env, Resolved ()).
Definition gets {A} (f : Env → A) : Async A := λ env, (env, Resolved (f env)).

(** ** JavaScript fragments *)

(** Truthiness of an optional string: [undefined], [null] and [""] are falsy. *)
Definition truthy (o : option string) : option string :=
  match o with
  | Some s => if decide (s = "") then None else Some s
  | None => None
  end.

(** [a > b] on numbers, [None] being NaN: any comparison with NaN is false. *)
Definition js_gt (a b : option Z) : bool :=
  match a, b with
  | Some x, Some y => bool_decide (y < x)%Z
  | _, _ => false
  end.

(** ** Local Document Store (RxDB collections) *)

(** [existing.update({ $set: doc })]: every field carried by [doc] is
    written ([null] included), every other field of the stored document is
    kept. *)
Definition set_fields (doc existing : ReplicationDoc) : ReplicationDoc :=
  {| id := id doc;
     updated_at := match updated_at doc with
                   | Undefined => updated_at existing
                   | carried => carried
                   end;
     congregation_id := congregation_id doc;
     fields := fields doc ∪ fields existing |}.

(** [collection.findOne(key).exec()]. *)
Definition findOne (c : CollectionName) (key : string) : Async (option ReplicationDoc) :=
  gets (λ env, db env c !! key).

(** [collection.insert(doc)]: a duplicate primary key is a conflict error. *)
Definition insert_doc (c : CollectionName) (doc : ReplicationDoc) : Async () := λ env,
  match db env c !! id doc with
  | Some _ => (env, Rejected (ErrorObject "CONFLICT"))
  | None => (set_collection c (insert (id doc) doc) env, Resolved ())
  end.

(** [existing.update({ $set: doc })] on the document found under [key]. *)
Definition update_doc (c : CollectionName) (key : string) (doc : ReplicationDoc) : Async () :=
  modify (set_collection c (alter (set_fields doc) key)).

(** [existing.remove()] on the document found under [key]. *)
Definition remove_doc (c : CollectionName) (key : string) : Async () :=
  modify (set_collection c (delete key)).

(** Result order of a query without [sort]: ascending primary key. *)
Definition id_le (d1 d2 : ReplicationDoc) : Prop := String.leb (id d1) (id d2) = true.

#[global] Instance id_le_dec : RelDecision id_le.
Proof. intros d1 d2. unfold id_le. apply _. Defined.

(** The documents of a collection matching [{ congregation_id }], in result
    order. *)
Definition local_docs (env : Env) (c : CollectionName) (congregationId : string)
    : list ReplicationDoc :=
  merge_sort id_le
    (filter (λ d, congregation_id d = congregationId) (map_to_list (db env c)).*2).

(** [collection.find({ selector: { congregation_id } }).exec()]. *)
Definition find_docs (c : CollectionName) (congregationId : string) : Async (list ReplicationDoc) :=
  gets (λ env, local_docs env c congregationId).

(** [docs[docs.length - 1]?.updated_at], when it is a string (the callers
    only test it for truthiness). *)
Definition last_updated_at (docs : list ReplicationDoc) : option string :=
  match last docs with
  | Some doc => as_string (updated_at doc)
  | None => None
  end.

(** ** Replication states *)

Definition fresh_state : ReplicationState :=
  {| isActive := false; lastSync := None; pendingChanges := 0; error := None |}.

Definition set_isActive (b : bool) (st : ReplicationState) : ReplicationState :=
  {| isActive := b; lastSync := lastSync st;
     pendingChanges := pendingChanges st; error := error st |}.

Definition set_lastSync (s : option string) (st : ReplicationState) : ReplicationState :=
  {| isActive := isActive st; lastSync := s;
     pendingChanges := pendingChanges st; error := error st |}.

Definition set_pendingChanges (n : nat) (st : ReplicationState) : ReplicationState :=
  {| isActive := isActive st; lastSync := lastSync st;
     pendingChanges := n; error := error st |}.

Definition set_error (e : option string) (st : ReplicationState) : ReplicationState :=
  {| isActive := isActive st; lastSync := lastSync st;
     pendingChanges := pendingChanges st; error := e |}.

(** [getReplicationState]: get or create the state of a collection. The
    result is a reference into the map; [assign] writes through it and
    [deref] reads through it. *)
Definition getReplicationState (collectionName : string) : Async ReplicationState := λ env,
  match replicationStates env !! collectionName with
  | Some st => (env, Resolved st)
  | None =>
      (set_replicationStates (insert collectionName fresh_state) env, Resolved fresh_state)
  end.

Definition assign (collectionName : string) (f : ReplicationState → ReplicationState) : Async () :=
  modify (set_replicationStates (alter f collectionName)).

Definition deref (collectionName : string) : Async ReplicationState :=
  gets (λ env, default fresh_state (replicationStates env !! collectionName)).

(** [{ pulled: number; pushed: number }]. *)
Record SyncResult := { pulled : nat; pushed : nat }.

(** The sync cursor of a collection: the [lastSync] of its replication
    state, [None] when the state does not exist yet. *)
Definition cursor (env : Env) (c : CollectionName) : option string :=
  lastSync (default fresh_state (replicationStates env !! collection_key c)).

(** [env'] differs from [env] at most by the content of collection [c],
    which went from [coll] to [g coll]. *)
Definition changes_only (c : CollectionName)
    (g : gmap string ReplicationDoc → gmap string ReplicationDoc) (env env' : Env) : Prop :=
  replicationStates env' = replicationStates env ∧
  remote env' = remote env ∧
  db env' c = g (db env c) ∧
  ∀ c', c' ≠ c → db env' c' = db env c'.

(** What the pull loop does with one fetched document. *)
Inductive Outcome := Inserted | Updated | Discarded.

#[global] Instance Outcome_eq_dec : EqDecision Outcome.
Proof. solve_decision. Defined.

Definition count_outcome (o : Outcome) (outcomes : list Outcome) : nat :=
  length (filter (λ x, x = o) outcomes).

(** ** Replication engine *)

Section Replication.

(** [Date.parse]: milliseconds since the epoch, [None] for an invalid date. *)
Variable Date_parse : string → option Z.

(** The instant a value of a [TIMESTAMP WITH TIME ZONE] column denotes for
    the remote store, which compares and orders by it. *)
Variable timestamptz : string → option Z.

(** [new Date(v).getTime()]: [new Date(undefined)] is an invalid date,
    [new Date(null)] is the epoch, a string is parsed. *)
Definition getTime (v : Nullable string) : option Z :=
  match v with
  | Undefined => None
  | Null => Some 0%Z
  | Present s => Date_parse s
  end.

(** *** Remote Record Store *)

(** Rows kept by [.eq('congregation_id', congregationId)] and, when a bound
    is sent, by [.gt('updated_at', since)] (an empty column compares to
    nothing). *)
Definition row_selected (congregationId : string) (since : option string)
    (row : ReplicationDoc) : bool :=
  bool_decide (congregation_id row = congregationId) &&
  match since with
  | Some s => js_gt (as_string (updated_at row) ≫= timestamptz) (timestamptz s)
  | None => true
  end.

(** [.order('updated_at', { ascending: true })], rows without a value last. *)
Definition updated_le (d1 d2 : ReplicationDoc) : Prop :=
  match as_string (updated_at d1) ≫= timestamptz,
        as_string (updated_at d2) ≫= timestamptz with
  | Some a, Some b => (a ≤ b)%Z
  | Some _, None => True
  | None, Some _ => False
  | None, None => True
  end.

#[local] Instance updated_le_dec : RelDecision updated_le.
Proof.
  intros d1 d2. unfold updated_le.
  destruct (as_string (updated_at d1) ≫= timestamptz),
           (as_string (updated_at d2) ≫= timestamptz); apply _.
Defined.

Definition select_rows (rows : list ReplicationDoc) (congregationId : string)
    (since : option string) : list ReplicationDoc :=
  merge_sort updated_le (filter (λ row, row_selected congregationId since row = true) rows).

(** The awaited query of [pullFromSupabase]: [{ data, error }]. *)
Definition supabase_select (c : CollectionName) (congregationId : string)
    (since : option string) : Async (option (list ReplicationDoc) * option Thrown) := λ env,
  let env' := set_remote (log_request (ReqSelect c congregationId since)) env in
  match select_error (remote env) c with
  | Some e => (env', Resolved (None, Some e))
  | None =>
      (env', Resolved (Some (select_rows (tables (remote env) c) congregationId since), None))
  end.

(** One record of an upsert with [onConflict: 'id'], [ignoreDuplicates: false]:
    a row with the same primary key takes the record's columns and the
    [BEFORE UPDATE] trigger stamps [updated_at]; otherwise the record is
    inserted, a missing [updated_at] defaulting to the server clock. *)
Definition upsert_row (now : string) (rows : list ReplicationDoc) (record : ReplicationDoc)
    : list ReplicationDoc :=
  if decide (id record ∈ id <$> rows) then
    (λ row, if decide (id row = id record)
            then {| id := id row; updated_at := Present now;
                    congregation_id := congregation_id record;
                    fields := fields record ∪ fields row |}
            else row) <$> rows
  else
    rows ++ [ {| id := id record;
                 updated_at := match updated_at record with
                               | Undefined => Present now
                               | sent => sent
                               end;
                 congregation_id := congregation_id record;
                 fields := fields record |} ].

(** The awaited [.upsert(records, ...)]: the batch is applied as a whole or
    not at all. *)
Definition supabase_upsert (c : CollectionName) (records : list ReplicationDoc)
    : Async (option Thrown) := λ env,
  let env' := set_remote (log_request (ReqUpsert c records)) env in
  match upsert_error (remote env) c with
  | Some e => (env', Resolved (Some e))
  | None =>
      (set_remote
         (λ s, set_table c (foldl (upsert_row (server_now s)) (tables s c) records) s) env',
       Resolved None)
  end.

(** *** Pull *)

(** The body of the loop over the fetched documents, with its own
    [try]/[catch] (the handler only logs). *)
Definition pull_doc (c : CollectionName) (doc : ReplicationDoc) : Async () :=
  try_catch
    (existing ← await findOne c (id doc);
     match existing with
     | Some existing =>
         let serverTime := getTime (updated_at doc) in
         let localTime := getTime (updated_at existing) in
         if js_gt serverTime localTime
         then update_doc c (id doc) doc
         else ret ()
     | None => insert_doc c doc
     end)
    (λ err, ret ()).

(** The remote document is strictly newer than the local one, as the pull
    loop decides it. *)
Definition newer (remote_doc local_doc : ReplicationDoc) : bool :=
  js_gt (getTime (updated_at remote_doc))
        (getTime (updated_at local_doc)).

(** The effect of one turn of the pull loop on the collection. *)
Definition merge_doc (doc : ReplicationDoc) (coll : gmap string ReplicationDoc)
    : gmap string ReplicationDoc :=
  match coll !! id doc with
  | Some existing =>
      if newer doc existing then alter (set_fields doc) (id doc) coll else coll
  | None => <[id doc := doc]> coll
  end.

Definition merge_docs (docs : list ReplicationDoc) (coll : gmap string ReplicationDoc)
    : gmap string ReplicationDoc :=
  foldl (λ acc doc, merge_doc doc acc) coll docs.

(** Which branch of the loop body a fetched document takes: inserted when
    absent locally, written over the local copy when strictly newer,
    discarded otherwise. *)
Definition pull_outcome (doc : ReplicationDoc) (coll : gmap string ReplicationDoc) : Outcome :=
  match coll !! id doc with
  | None => Inserted
  | Some existing => if newer doc existing then Updated else Discarded
  end.

(** The branches taken along the loop, the collection evolving with it. *)
Fixpoint pull_outcomes (docs : list ReplicationDoc) (coll : gmap string ReplicationDoc)
    : list Outcome :=
  match docs with
  | [] => []
  | doc :: rest => pull_outcome doc coll :: pull_outcomes rest (merge_doc doc coll)
  end.

(** The handler shared by the outer [catch] of pull and push. *)
Definition fail_replication {A} (name : string) (error : Thrown) : Async A :=
  await getReplicationState name;
  await assign name (set_isActive false);
  await assign name (set_error (Some (error_message error)));
  throw error.

Definition pullFromSupabase (c : CollectionName) (congregationId : string)
    (since : option string) : Async nat :=
  let name := collection_key c in
  try_catch
    (await getReplicationState name;
     await assign name (set_isActive true);
     '(data, error) ← await supabase_select c congregationId (truthy since);
     match error with
     | Some e => throw e
     | None =>
         match data with
         | None | Some [] => await assign name (set_isActive false); ret 0
         | Some docs =>
             await for_of docs (pull_doc c);
             await match truthy (last_updated_at docs) with
                   | Some lastUpdated => assign name (set_lastSync (Some lastUpdated))
                   | None => ret ()
                   end;
             await assign name (set_isActive false);
             ret (length docs)
         end
     end)
    (fail_replication name).

(** *** Push *)

(** [new Date(doc.updated_at || 0) > new Date(since)]. *)
Definition modified_since (since : string) (doc : ReplicationDoc) : bool :=
  js_gt (match truthy (as_string (updated_at doc)) with
         | Some s => Date_parse s
         | None => Some 0%Z
         end)
        (Date_parse since).

(** [since ? docs.filter(...) : docs]. *)
Definition docsToSync (since : option string) (docs : list ReplicationDoc)
    : list ReplicationDoc :=
  match truthy since with
  | Some s => filter (λ doc, modified_since s doc = true) docs
  | None => docs
  end.

(** [toJSON()] followed by the removal of the RxDB internal fields. *)
Definition to_record (doc : ReplicationDoc) : ReplicationDoc :=
  {| id := id doc; updated_at := updated_at doc; congregation_id := congregation_id doc;
     fields := delete "_meta" (delete "_attachments" (delete "_rev" (fields doc))) |}.

(** The records a push hands to the upsert when its bound is [since]. *)
Definition push_batch (since : option string) (docs : list ReplicationDoc)
    : list ReplicationDoc :=
  to_record <$> docsToSync since docs.

(** The upsert call a push makes for a batch: none for an empty batch. *)
Definition upsert_requests (c : CollectionName) (batch : list ReplicationDoc) : list Request :=
  match batch with
  | [] => []
  | _ => [ReqUpsert c batch]
  end.

Definition pushToSupabase (c : CollectionName) (congregationId : string) : Async nat :=
  let name := collection_key c in
  try_catch
    (await getReplicationState name;
     await assign name (set_isActive true);
     state ← await deref name;
     let since := lastSync state in
     docs ← await find_docs c congregationId;
     match docsToSync since docs with
     | [] => await assign name (set_isActive false); ret 0
     | toSync =>
         let records := to_record <$> toSync in
         error ← await supabase_upsert c records;
         match error with
         | Some e => throw e
         | None =>
             await match truthy (last_updated_at records) with
                   | Some lastUpdated => assign name (set_lastSync (Some lastUpdated))
                   | None => ret ()
                   end;
             await assign name (set_pendingChanges 0);
             await assign name (set_isActive false);
             ret (length records)
         end
     end)
    (fail_replication name).

(** *** Bidirectional sync and the orchestrator *)

Definition syncCollection (c : CollectionName) (congregationId : string) : Async SyncResult :=
  state ← await getReplicationState (collection_key c);
  let since := truthy (lastSync state) in
  pulled ← await pullFromSupabase c congregationId since;
  pushed ← await pushToSupabase c congregationId;
  ret {| pulled := pulled; pushed := pushed |}.

(** The loop of [syncAll] over the remaining collections, [results] being
    the record filled so far. *)
Fixpoint syncAll_loop (congregationId : string) (collections : list CollectionName)
    (results : gmap string SyncResult) : Async (gmap string SyncResult) :=
  match collections with
  | [] => ret results
  | c :: rest =>
      r ← await try_catch (syncCollection c congregationId)
                          (λ error, ret {| pulled := 0; pushed := 0 |});
      syncAll_loop congregationId rest (<[collection_key c := r]> results)
  end.

(** The entry [syncAll] records for a collection: what its sync resolved
    to, or zeros when it threw. *)
Definition recorded_result (r : Completion SyncResult) : SyncResult :=
  match r with
  | Resolved result => result
  | Rejected _ => {| pulled := 0; pushed := 0 |}
  end.

Definition syncAll (congregationId : string) : Async (gmap string SyncResult) :=
  syncAll_loop congregationId [territories; houses; assignments] ∅.

End Replication.

(** ** Realtime feed *)

(** The value under a key of the payload that the code reads as an object:
    [undefined], [null], a primitive, or an object, with what the code reads
    from it. *)
Inductive Slot (A : Type) := Absent | IsNull | Primitive | AnObject (a : A).
Arguments Absent {A}.
Arguments IsNull {A}.
Arguments Primitive {A}.
Arguments AnObject {A} a.

(** A payload as it arrives on a channel. [eventType] is the raw string;
    an object under [new] is the new record when it carries a string [id]
    ([None] for a record without one, such as the empty record of a delete
    event); an object under [old] carries [old.id] when it is a string. *)
Record RealtimePayload := {
  eventType : string;
  new : Slot (option ReplicationDoc);
  old : Slot (option string);
}.

(** [typeof v === 'object'], which holds of [null]. *)
Definition typeof_object {A} (v : Slot A) : bool :=
  match v with
  | IsNull | AnObject _ => true
  | Absent | Primitive => false
  end.

(** [isValidPayload]: a known event type, [typeof p.new === 'object'] and
    [p.old === undefined || typeof p.old === 'object']. *)
Definition isValidPayload (payload : RealtimePayload) : bool :=
  bool_decide (eventType payload ∈ ["INSERT"; "UPDATE"; "DELETE"]) &&
  typeof_object (new payload) &&
  match old payload with
  | Absent => true
  | held => typeof_object held
  end.

(** The [TypeError] thrown when [id] is read from [undefined] or [null]. *)
Definition TypeError (value : string) : Thrown :=
  ErrorObject ("Cannot read properties of " +:+ value +:+ " (reading 'id')").

(** What [.channel(name).on('postgres_changes', { table, filter }, listener)]
    registers ([filter_by] is the [filter] option). *)
Record Subscription := {
  channel : string;
  table : CollectionName;
  filter_by : string;
  listener : RealtimePayload → Async ();
}.

(** [subscribeToChanges]: the listener drops invalid payloads (after a
    warning) and hands the others to the callback; its completion here is
    that of the promise the callback returns. *)
Definition subscribeToChanges (c : CollectionName) (congregationId : string)
    (callback : RealtimePayload → Async ()) : Subscription :=
  {| channel := collection_key c +:+ "_changes";
     table := c;
     filter_by := "congregation_id=eq." +:+ congregationId;
     listener := λ payload,
       if isValidPayload payload then callback payload else ret () |}.

(** The callback [initializeReplication] gives to [subscribeToChanges] for a
    collection. [doc.id] and [payload.old.id] are read before the [try]:
    on [undefined] or [null] the read throws, on a primitive it gives
    [undefined]. *)
Definition handle_change (c : CollectionName) (payload : RealtimePayload) : Async () :=
  if decide (eventType payload = "INSERT" ∨ eventType payload = "UPDATE") then
    match new payload with
    | Absent => throw (TypeError "undefined")
    | IsNull => throw (TypeError "null")
    | Primitive | AnObject None => ret ()
    | AnObject (Some doc) =>
        match truthy (Some (id doc)) with
        | None => ret ()
        | Some docId =>
            try_catch
              (existing ← await findOne c docId;
               match existing with
               | Some _ => update_doc c docId doc
               | None => insert_doc c doc
               end)
              (λ err, ret ())
        end
    end
  else if decide (eventType payload = "DELETE") then
    match old payload with
    | Absent => throw (TypeError "undefined")
    | IsNull => throw (TypeError "null")
    | Primitive | AnObject None => ret ()
    | AnObject (Some oldId) =>
        try_catch
          (existing ← await findOne c oldId;
           match existing with
           | Some _ => remove_doc c oldId
           | None => ret ()
           end)
          (λ err, ret ())
    end
  else ret ().

(** The effect of an insert or update event on the collection: the stored
    document takes every field of the incoming one, whatever their
    [updated_at]; an absent document is inserted. *)
Definition apply_upsert_event (doc : ReplicationDoc) (coll : gmap string ReplicationDoc)
    : gmap string ReplicationDoc :=
  match coll !! id doc with
  | Some _ => alter (set_fields doc) (id doc) coll
  | None => <[id doc := doc]> coll
  end.

(** The subscriptions opened by [initializeReplication]. *)
Definition initializeReplication (congregationId : string) (enableRealtime : bool)
    : list Subscription :=
  if enableRealtime
  then (λ c, subscribeToChanges c congregationId (handle_change c))
         <$> [territories; houses; assignments]
  else [].

(** A change of a row on the server: its table, the tenant column of the row
    and the payload sent to the subscribers it is delivered to. *)
Record Change := {
  change_table : CollectionName;
  change_tenant : string;
  change_payload : RealtimePayload;
}.

(** The feed contract consumed from the Remote Record Store: a change reaches
    a subscription when it is on the subscribed table and its row satisfies
    the filter [congregation_id=eq.<value>]. *)
Definition deliver (sub : Subscription) (change : Change) : Async () :=
  if decide (change_table change = table sub ∧
             filter_by sub = "congregation_id=eq." +:+ change_tenant change)
  then listener sub (change_payload change)
  else ret ().

(** ** Opening the local store ([rxdb/index.ts]) *)

Module RxDB.

(** A database instance: the name it was created under, its collections
    and the rank of its creation (two instances are the same live
    instance exactly when they are equal). *)
Record TerritoryDatabase := {
  name : string;
  collections : list string;
  instance : nat;
}.

(** The module state: [dbPromise], settled with the database or with the
    error of the open that failed, and the number of opens started. *)
Record Module_state := {
  dbPromise : option (Completion TerritoryDatabase);
  created : nat;
}.

Definition initial : Module_state := {| dbPromise := None; created := 0 |}.

(** [createRxDatabase({ name: `territory_mapper_${congregationId}` })]
    followed by [addCollections], when the storage answers. *)
Definition createRxDatabase (congregationId : string) (rank : nat) : TerritoryDatabase :=
  {| name := "territory_mapper_" +:+ congregationId;
     collections := ["territories"; "houses"; "assignments"; "sync_state"];
     instance := rank |}.

(** [initDatabase]; [storage] is the error [createRxDatabase] or
    [addCollections] rejects with, if any. The promise is stored before it
    settles and stays stored when it rejects. *)
Definition initDatabase (storage : option Thrown) (congregationId : string)
    (st : Module_state) : Module_state * Completion TerritoryDatabase :=
  match dbPromise st with
  | Some promise => (st, promise)
  | None =>
      let promise := match storage with
                     | Some e => Rejected e
                     | None => Resolved (createRxDatabase congregationId (created st))
                     end in
      ({| dbPromise := Some promise; created := S (created st) |}, promise)
  end.

(** [closeDatabase]; [destroyed] is the error [db.destroy()] rejects with,
    if any. [dbPromise] is cleared after both awaits only. *)
Definition closeDatabase (destroyed : option Thrown) (st : Module_state)
    : Module_state * Completion () :=
  match dbPromise st with
  | None => (st, Resolved ())
  | Some (Rejected e) => (st, Rejected e)
  | Some (Resolved _) =>
      match destroyed with
      | Some e => (st, Rejected e)
      | None => ({| dbPromise := None; created := created st |}, Resolved ())
      end
  end.

(** [resetDatabase]: [await closeDatabase(); dbPromise = null]. *)
Definition resetDatabase (destroyed : option Thrown) (st : Module_state)
    : Module_state * Completion () :=
  match closeDatabase destroyed st with
  | (st', Resolved _) => ({| dbPromise := None; created := created st' |}, Resolved ())
  | (st', Rejected e) => (st', Rejected e)
  end.

(** A sequence of [initDatabase] calls on a storage that answers, with what
    each returns. *)
Fixpoint open_all (tenants : list string) (st : Module_state)
    : Module_state * list (Completion TerritoryDatabase) :=
  match tenants with
  | [] => (st, [])
  | t :: rest =>
      let '(st1, database) := initDatabase None t st in
      let '(st2, others) := open_all rest st1 in
      (st2, database :: others)
  end.

End RxDB.

(** ** Intermediate environments, status readout and callers *)

(** The environment in which the remote query of a pull has been sent. *)
Definition pull_started (c : CollectionName) (congregationId : string)
    (since : option string) (env : Env) : Env :=
  set_remote (log_request (ReqSelect c congregationId (truthy since)))
    (set_replicationStates (alter (set_isActive true) (collection_key c))
       (getReplicationState (collection_key c) env).1).

(** The environment in which a push starts reading the local store. *)
Definition push_started (c : CollectionName) (env : Env) : Env :=
  set_replicationStates (alter (set_isActive true) (collection_key c))
    (getReplicationState (collection_key c) env).1.

(** The remote store after an upsert of [batch] into table [c] was applied. *)
Definition upsert_applied (c : CollectionName) (batch : list ReplicationDoc) (s : Supabase)
    : Supabase :=
  set_table c (foldl (upsert_row (server_now s)) (tables s c) batch) s.

(** The replication state of a collection as a status readout shows it. *)
Definition state_of (env : Env) (c : CollectionName) : ReplicationState :=
  default fresh_state (replicationStates env !! collection_key c).

(** A request that reads or writes nothing outside a tenant: a select
    filtered on it, an upsert of its documents only. *)
Definition request_scoped (congregationId : string) (request : Request) : Prop :=
  match request with
  | ReqSelect _ tenant _ => tenant = congregationId
  | ReqUpsert _ records => Forall (λ record, congregation_id record = congregationId) records
  end.

(** From [env] to [env'], only requests scoped to the tenant were made. *)
Definition scoped_requests (congregationId : string) (env env' : Env) : Prop :=
  ∃ made, requests (remote env') = requests (remote env) ++ made ∧
          Forall (request_scoped congregationId) made.

(** From [env] to [env'], no remote table lost a row id. *)
Definition rows_kept (env env' : Env) : Prop :=
  ∀ c row, row ∈ tables (remote env) c → id row ∈ id <$> tables (remote env') c.

(** The internal fields of RxDB a push removes. *)
Definition internal_fields : list string := ["_rev"; "_attachments"; "_meta"].

(** [getReplicationStatus]: the state of one collection (created when
    missing) or, without a name, the whole map. *)
Definition getReplicationStatus (collectionName : option string)
    : Async (ReplicationState + gmap string ReplicationState) :=
  match truthy collectionName with
  | Some name => state ← await getReplicationState name; ret (inl state)
  | None => states ← await gets replicationStates; ret (inr states)
  end.

(** Two listeners on one event: the second runs whatever the first did;
    the rejection reported is the first one, if any. *)
Definition both (first second : Async ()) : Async () := λ env,
  let '(env1, r1) := first env in
  let '(env2, r2) := second env1 in
  (env2, match r1 with
         | Rejected e => Rejected e
         | Resolved _ => r2
         end).

(** A change on the server reaching every open subscription, each under
    the feed contract of [deliver]. *)
Fixpoint broadcast (subs : list Subscription) (change : Change) : Async () :=
  match subs with
  | [] => ret ()
  | sub :: rest => both (deliver sub change) (broadcast rest change)
  end.

(** [undefined] or [null]: the values a property cannot be read from. *)
Definition nullish {A} (v : Slot A) : bool :=
  match v with
  | Absent | IsNull => true
  | Primitive | AnObject _ => false
  end.

(** A payload the callback cannot read: the slot its event type reads
    holds [undefined] or [null]. *)
Definition unreadable (payload : RealtimePayload) : Prop :=
  ((eventType payload = "INSERT" ∨ eventType payload = "UPDATE") ∧
   nullish (new payload) = true) ∨
  (eventType payload = "DELETE" ∧ nullish (old payload) = true).

#[global] Instance unreadable_dec payload : Decision (unreadable payload).
Proof. unfold unreadable. apply _. Defined.

(** A payload the listener drops: one [isValidPayload] refuses, an insert
    or update whose record has no non-empty string [id], a delete whose old
    record has no string [id]. *)
Definition malformed (payload : RealtimePayload) : Prop :=
  isValidPayload payload = false ∨
  ((eventType payload = "INSERT" ∨ eventType payload = "UPDATE") ∧
   (new payload = Primitive ∨ new payload = AnObject None ∨
    ∃ doc, new payload = AnObject (Some doc) ∧ id doc = "")) ∨
  (eventType payload = "DELETE" ∧
   (old payload = Primitive ∨ old payload = AnObject None)).

(** *** The logger ([utils/logger.ts]) *)

Module Logger.

Inductive LogLevel := debug | info | warn | error.

(** Where the logger runs: on the server ([typeof window === 'undefined']),
    in production ([NODE_ENV === 'production']), and the level configured in
    [window.__LOG_LEVEL__], if any. *)
Record Runtime := {
  on_server : bool;
  production : bool;
  configLevel : option LogLevel;
}.

(** [levels.indexOf(level)] in [['debug', 'info', 'warn', 'error']]. *)
Definition indexOf (level : LogLevel) : nat :=
  match level with
  | debug => 0
  | info => 1
  | warn => 2
  | error => 3
  end.

Definition shouldLog (rt : Runtime) (level : LogLevel) : bool :=
  if on_server rt then
    if production rt
    then match level with error | warn => true | _ => false end
    else true
  else
    match configLevel rt with
    | None =>
        if production rt
        then match level with error => true | _ => false end
        else true
    | Some configured => bool_decide (indexOf configured ≤ indexOf level)
    end.

End Logger.

(** *** The store handle over time ([rxdb/index.ts]) *)

(** [getDatabase]: [dbPromise ? await dbPromise : null]. *)
Definition getDatabase (st : RxDB.Module_state) : Completion (option RxDB.TerritoryDatabase) :=
  match RxDB.dbPromise st with
  | None => Resolved None
  | Some (Resolved database) => Resolved (Some database)
  | Some (Rejected e) => Rejected e
  end.

(** A call on the store module, with what the storage answers to it. *)
Inductive StoreCall :=
  | CallInit (storage : option Thrown) (congregationId : string)
  | CallClose (destroyed : option Thrown)
  | CallReset (destroyed : option Thrown).

(** The module state after a call, and how the call completed: with the
    instance for [initDatabase], with nothing for the two others. *)
Definition store_call (st : RxDB.Module_state) (call : StoreCall)
    : RxDB.Module_state * Completion (option RxDB.TerritoryDatabase) :=
  match call with
  | CallInit storage congregationId =>
      match RxDB.initDatabase storage congregationId st with
      | (st', Resolved database) => (st', Resolved (Some database))
      | (st', Rejected e) => (st', Rejected e)
      end
  | CallClose destroyed =>
      match RxDB.closeDatabase destroyed st with
      | (st', Resolved _) => (st', Resolved None)
      | (st', Rejected e) => (st', Rejected e)
      end
  | CallReset destroyed =>
      match RxDB.resetDatabase destroyed st with
      | (st', Resolved _) => (st', Resolved None)
      | (st', Rejected e) => (st', Rejected e)
      end
  end.

(** A session of calls: the final module state and how each call
    completed. *)
Fixpoint store_session (calls : list StoreCall) (st : RxDB.Module_state)
    : RxDB.Module_state * list (Completion (option RxDB.TerritoryDatabase)) :=
  match calls with
  | [] => (st, [])
  | call :: rest =>
      let '(st1, outcome) := store_call st call in
      let '(st2, later) := store_session rest st1 in
      (st2, outcome :: later)
  end.

(** The instances handed out along a session. *)
Definition handed_out (outcomes : list (Completion (option RxDB.TerritoryDatabase)))
    : list RxDB.TerritoryDatabase :=
  omap (λ outcome, match outcome with
                   | Resolved handed => handed
                   | Rejected _ => None
                   end) outcomes.

(** Every open instance was created earlier than the next one will be. *)
Definition ranked (st : RxDB.Module_state) : Prop :=
  ∀ database, RxDB.dbPromise st = Some (Resolved database) →
              RxDB.instance database < RxDB.created st.

(** *** The hooks over the local store ([hooks/useRxDB.ts]) *)

(** The fields of an update: [Partial<...>] without the primary key. *)
Record Updates := {
  set_updated_at : option string;
  set_congregation_id : option string;
  set_other : gmap string JsValue;
}.

(** [doc.update({ $set: updates })]. *)
Definition apply_updates (updates : Updates) (existing : ReplicationDoc) : ReplicationDoc :=
  {| id := id existing;
     updated_at := match set_updated_at updates with
                   | Some s => Present s
                   | None => updated_at existing
                   end;
     congregation_id := default (congregation_id existing) (set_congregation_id updates);
     fields := set_other updates ∪ fields existing |}.

(** [{ ...updates, updated_at: new Date().toISOString() }]. *)
Definition stamped (now : string) (updates : Updates) : Updates :=
  {| set_updated_at := Some now;
     set_congregation_id := set_congregation_id updates;
     set_other := set_other updates |}.

Definition not_initialized {A} : Async A :=
  throw (ErrorObject "Database not initialized").

(** [addTerritory], [addHouse], [addAssignment], on their collection;
    [initialized] tells whether the hook holds a database. *)
Definition addDocument (c : CollectionName) (initialized : bool) (doc : ReplicationDoc)
    : Async ReplicationDoc :=
  if initialized then await insert_doc c doc; ret doc else not_initialized.

(** [updateTerritory], [updateAssignment]: the given fields are written,
    nothing else. *)
Definition updateDocument (c : CollectionName) (initialized : bool) (key : string)
    (updates : Updates) : Async () :=
  if initialized then
    doc ← await findOne c key;
    match doc with
    | Some _ => modify (set_collection c (alter (apply_updates updates) key))
    | None => ret ()
    end
  else not_initialized.

(** [updateHouse]: as above over [houses], with [updated_at] set to the
    current time. *)
Definition updateHouse (now : string) (initialized : bool) (key : string)
    (updates : Updates) : Async () :=
  updateDocument houses initialized key (stamped now updates).

(** [deleteTerritory], [deleteHouse], [deleteAssignment]. *)
Definition deleteDocument (c : CollectionName) (initialized : bool) (key : string)
    : Async () :=
  if initialized then
    doc ← await findOne c key;
    match doc with
    | Some _ => remove_doc c key
    | None => ret ()
    end
  else not_initialized.

(** The loop of [bulkAddHouses]: each insert in its own [try]/[catch]. *)
Fixpoint bulkAddHouses_loop (batch : list ReplicationDoc) (results : list ReplicationDoc)
    : Async (list ReplicationDoc) :=
  match batch with
  | [] => ret results
  | house :: rest =>
      results' ← await try_catch (await insert_doc houses house; ret (results ++ [house]))
                                 (λ err, ret results);
      bulkAddHouses_loop rest results'
  end.

Definition bulkAddHouses (initialized : bool) (batch : list ReplicationDoc)
    : Async (list ReplicationDoc) :=
  if initialized then bulkAddHouses_loop batch [] else not_initialized.

(** *** The manual sync of [useSync] *)

Module UseSync.

(** The state of the hook. *)
Record State := {
  isSyncing : bool;
  lastSync : option string;
  pendingChanges : nat;
  error : option string;
}.

(** What [sync] resolves to. *)
Record Summary := {
  pulled : nat;
  pushed : nat;
  details : gmap string SyncResult;
}.

End UseSync.

(** [Object.values(results).reduce((sum, r) => sum + r.pulled, 0)] and the
    same over [pushed] (a sum, the same in any order of the values). *)
Definition total_pulled (results : gmap string SyncResult) : nat :=
  map_fold (λ _ r sum, sum + pulled r) 0 results.

Definition total_pushed (results : gmap string SyncResult) : nat :=
  map_fold (λ _ r sum, sum + pushed r) 0 results.

Section Manual_sync.

Variable Date_parse : string → option Z.
Variable timestamptz : string → option Z.

(** [sync] of [useSync]: [now] is the time read when the sync ends; the
    [finally] clears [isSyncing] on both ways out. *)
Definition sync (now : string) (initialized : bool) (congregationId : option string)
    (hook : UseSync.State) (env : Env) : Env * UseSync.State * Completion UseSync.Summary :=
  match initialized, truthy congregationId with
  | true, Some tenant =>
      match syncAll Date_parse timestamptz tenant env with
      | (env', Resolved results) =>
          (env',
           {| UseSync.isSyncing := false;
              UseSync.lastSync := Some now;
              UseSync.pendingChanges := 0;
              UseSync.error := None |},
           Resolved {| UseSync.pulled := total_pulled results;
                       UseSync.pushed := total_pushed results;
                       UseSync.details := results |})
      | (env', Rejected e) =>
          (env',
           {| UseSync.isSyncing := false;
              UseSync.lastSync := UseSync.lastSync hook;
              UseSync.pendingChanges := UseSync.pendingChanges hook;
              UseSync.error := Some match e with
                                    | ErrorObject message => message
                                    | OtherValue => "Sync failed"
                                    end |},
           Rejected e)
      end
  | _, _ => (env, hook, Rejected (ErrorObject "Database or congregation not initialized"))
  end.

End Manual_sync.

(** ** Sample data *)

Module Sample.

Definition jan1 : string := "2024-01-01T00:00:00.000Z".
Definition jan2 : string := "2024-01-02T00:00:00.000Z".
Definition jan3 : string := "2024-01-03T00:00:00.000Z".

(** [Date.parse] on the three sample instants (milliseconds since the
    epoch), every other string taken as an invalid date. *)
Definition clock (s : string) : option Z :=
  if decide (s = jan1) then Some 1704067200000%Z
  else if decide (s = jan2) then Some 1704153600000%Z
  else if decide (s = jan3) then Some 1704240000000%Z
  else None.

Definition doc (i t tenant : string) : ReplicationDoc :=
  {| id := i; updated_at := Present t; congregation_id := tenant; fields := ∅ |}.

Definition supabase (rows : list ReplicationDoc) : Supabase :=
  {| tables := λ c, match c with territories => rows | _ => [] end;
     select_error := λ _, None;
     upsert_error := λ _, None;
     server_now := jan3;
     requests := [] |}.

(** An environment whose only content is in [territories]: the local
    documents [local_rows], the remote rows [remote_rows]. *)
Definition env_of (states : gmap string ReplicationState)
    (local_rows remote_rows : list ReplicationDoc) : Env :=
  {| replicationStates := states;
     db := λ c, match c with
                | territories => list_to_map ((λ d, (id d, d)) <$> local_rows)
                | _ => ∅
                end;
     remote := supabase remote_rows |}.

(** The remote copy of [t1] is the newer one. *)
Definition env_remote_newer : Env :=
  env_of ∅ [doc "t1" jan1 "A"] [doc "t1" jan2 "A"].

(** The local copy of [t1] is the newer one. *)
Definition env_local_newer : Env :=
  env_of ∅ [doc "t1" jan2 "A"] [doc "t1" jan1 "A"].

(** Two local documents never synchronised, the one with the smaller id
    being the more recent; nothing on the remote side. *)
Definition env_two_local : Env :=
  env_of ∅ [doc "a" jan2 "A"; doc "b" jan1 "A"] [].

(** A local document edited on [jan3]. *)
Definition env_local_edit : Env :=
  env_of ∅ [doc "t1" jan3 "A"] [].

(** A feed payload announcing the state of [t1] as of [jan1]. *)
Definition stale_update : RealtimePayload :=
  {| eventType := "UPDATE"; new := AnObject (Some (doc "t1" jan1 "A"));
     old := AnObject (Some "t1") |}.

(** A feed payload announcing the deletion of [t1]. *)
Definition delete_t1 : RealtimePayload :=
  {| eventType := "DELETE"; new := AnObject None; old := AnObject (Some "t1") |}.

(** A local document of tenant A never synchronised, and a more recent
    remote document of the same tenant. *)
Definition env_unsynced_local : Env :=
  env_of ∅ [doc "a" jan2 "A"] [doc "b" jan3 "A"].

(** Two tenants in the same remote table: a row of A of [jan3], a row of B
    of [jan2]. *)
Definition env_two_tenants : Env :=
  env_of ∅ [] [doc "a1" jan3 "A"; doc "b1" jan2 "B"].

(** The remote answers every select on [houses] with an error. *)
Definition env_houses_down : Env :=
  {| replicationStates := ∅;
     db := λ _, ∅;
     remote :=
       {| tables := λ c, match c with
                         | territories => [doc "t1" jan1 "A"]
                         | houses => [doc "h1" jan1 "A"]
                         | assignments => [doc "s1" jan2 "A"]
                         end;
          select_error := λ c, match c with
                               | houses => Some (ErrorObject "network")
                               | _ => None
                               end;
          upsert_error := λ _, None;
          server_now := jan3;
          requests := [] |} |}.

End Sample.

(** Further sample data: recorded states, a refusing remote, a house. *)
Module Scenario.

(** The state of a collection whose last replication failed. *)
Definition failed_state : ReplicationState :=
  {| isActive := false; lastSync := None; pendingChanges := 0; error := Some "network" |}.

(** The state of a collection synchronised up to [jan2]. *)
Definition synced_state : ReplicationState :=
  {| isActive := false; lastSync := Some Sample.jan2; pendingChanges := 0; error := None |}.

(** [territories] failed earlier; the remote copy of [t1] is the newer one. *)
Definition env_failed_before : Env :=
  Sample.env_of {["territories" := failed_state]}
    [Sample.doc "t1" Sample.jan1 "A"] [Sample.doc "t1" Sample.jan2 "A"].

(** The remote refuses every upsert; one local document was never pushed. *)
Definition env_upsert_refused : Env :=
  {| replicationStates := ∅;
     db := λ c, match c with
                | territories => {["t1" := Sample.doc "t1" Sample.jan3 "A"]}
                | _ => ∅
                end;
     remote :=
       {| tables := λ _, [];
          select_error := λ _, None;
          upsert_error := λ _, Some (ErrorObject "denied");
          server_now := Sample.jan3;
          requests := [] |} |}.

(** A house last written on [jan1], [houses] synchronised up to [jan2]. *)
Definition env_house : Env :=
  {| replicationStates := {["houses" := synced_state]};
     db := λ c, match c with
                | houses => {["h1" := Sample.doc "h1" Sample.jan1 "A"]}
                | _ => ∅
                end;
     remote := Sample.supabase [] |}.

(** A territory last written on [jan1], [territories] synchronised up to
    [jan2]. *)
Definition env_territory_synced : Env :=
  Sample.env_of {["territories" := synced_state]}
    [Sample.doc "t1" Sample.jan1 "A"] [Sample.doc "t1" Sample.jan1 "A"].

(** The local copy of [t1] as of [jan1], with a field the remote table does
    not have. *)
Definition noted_t1 : ReplicationDoc :=
  {| id := "t1"; updated_at := Present Sample.jan1; congregation_id := "A";
     fields := {["local_note" := JStr "call back"]} |}.

(** The remote copy of [t1] is the newer one; the local copy carries a
    field of its own. *)
Definition env_local_note : Env :=
  Sample.env_of ∅ [noted_t1] [Sample.doc "t1" Sample.jan2 "A"].

(** [t1] with [null] for [updated_at]. *)
Definition unstamped_t1 : ReplicationDoc :=
  {| id := "t1"; updated_at := Null; congregation_id := "A"; fields := ∅ |}.

(** The epoch, and [Date.parse] on the samples and on it. *)
Definition epoch : string := "1970-01-01T00:00:00.000Z".

Definition clock (s : string) : option Z :=
  if decide (s = epoch) then Some 0%Z else Sample.clock s.

(** The local copy of [t1] has [null] for [updated_at]; the remote copy is
    dated [jan1]. *)
Definition env_local_null : Env :=
  Sample.env_of ∅ [unstamped_t1] [Sample.doc "t1" Sample.jan1 "A"].

(** The local copy of [t1] is dated at the epoch; the remote copy has
    [null] for [updated_at]. *)
Definition env_remote_null : Env :=
  Sample.env_of ∅ [Sample.doc "t1" epoch "A"] [unstamped_t1].

(** An edit of the name, with no [updated_at] among its fields. *)
Definition rename : Updates :=
  {| set_updated_at := None;
     set_congregation_id := None;
     set_other := {["name" := JStr "North"]} |}.

(** An insert event whose record has no [id]. *)
Definition insert_without_row : RealtimePayload :=
  {| eventType := "INSERT"; new := AnObject None; old := AnObject None |}.

(** An update event whose new record is [null]. *)
Definition update_with_null : RealtimePayload :=
  {| eventType := "UPDATE"; new := IsNull; old := AnObject (Some "t1") |}.

End Scenario.

(** * Properties *)

(** ** Running promises *)

Lemma bind_run {A B} (m : Async A) (k : A → Async B) env env1 a :
  m env = (env1, Resolved a) → bind m k env = k a env1.
Proof. intros H. unfold bind. by rewrite H. Qed.

Lemma try_catch_resolved {A} (body : Async A) handler env env1 a :
  body env = (env1, Resolved a) → try_catch body handler env = (env1, Resolved a).
Proof. intros H. unfold try_catch. by rewrite H. Qed.

Lemma try_catch_rejected {A} (body : Async A) handler env env1 e :
  body env = (env1, Rejected e) → try_catch body handler env = handler e env1.
Proof. intros H. unfold try_catch. by rewrite H. Qed.

(** ** Environment bookkeeping *)

Lemma db_set_collection c f env : db (set_collection c f env) c = f (db env c).
Proof. unfold set_collection; simpl. apply fn_lookup_insert. Qed.

Lemma db_set_collection_ne c c' f env :
  c' ≠ c → db (set_collection c f env) c' = db env c'.
Proof. intros Hne. unfold set_collection; simpl. by apply fn_lookup_insert_ne. Qed.

Lemma collection_key_inj c1 c2 : collection_key c1 = collection_key c2 → c1 = c2.
Proof. by destruct c1, c2. Qed.

(** Closes [collection_key c ≠ collection_key c'] from [c ≠ c'] in the
    context, for the lookups in the replication-state map. *)
Ltac distinct_keys :=
  let Heq := fresh "Heq" in intros Heq; by apply collection_key_inj in Heq.

Lemma truthy_idemp o : truthy (truthy o) = truthy o.
Proof.
  destruct o as [s|]; simpl; [|done].
  destruct (decide (s = "")) as [|Hs]; simpl; [done|].
  by destruct (decide (s = "")).
Qed.

Lemma changes_only_refl c env : changes_only c (λ coll, coll) env env.
Proof. by repeat split. Qed.

Lemma changes_only_trans c g1 g2 env1 env2 env3 :
  changes_only c g1 env1 env2 → changes_only c g2 env2 env3 →
  changes_only c (λ coll, g2 (g1 coll)) env1 env3.
Proof.
  intros (Hs1 & Hr1 & Hd1 & Ho1) (Hs2 & Hr2 & Hd2 & Ho2).
  repeat split; [congruence..| |].
  - by rewrite Hd2, Hd1.
  - intros c' Hne. by rewrite Ho2, Ho1.
Qed.
(** Reading and writing through the reference [getReplicationState] gives. *)
Lemma cursor_set_replicationStates f env c :
  cursor (set_replicationStates f env) c =
  lastSync (default fresh_state (f (replicationStates env) !! collection_key c)).
Proof. done. Qed.

Lemma getReplicationState_run name env :
  ∃ env', getReplicationState name env =
            (env', Resolved (default fresh_state (replicationStates env !! name))) ∧
          db env' = db env ∧ remote env' = remote env ∧
          is_Some (replicationStates env' !! name) ∧
          ∀ key, default fresh_state (replicationStates env' !! key) =
                 default fresh_state (replicationStates env !! key).
Proof.
  unfold getReplicationState.
  destruct (replicationStates env !! name) as [st|] eqn:Hst.
  - exists env. rewrite Hst. by repeat split.
  - eexists; split; [reflexivity|]. simpl. repeat split.
    + by rewrite lookup_insert_eq.
    + intros key. destruct (decide (name = key)) as [<-|Hne].
      * by rewrite lookup_insert_eq, Hst.
      * by rewrite lookup_insert_ne.
Qed.

Lemma cursor_alter_other g env c :
  (∀ st, lastSync (g st) = lastSync st) →
  cursor (set_replicationStates (alter g (collection_key c)) env) c = cursor env c.
Proof.
  intros Hg. rewrite cursor_set_replicationStates, lookup_alter_eq. unfold cursor.
  destruct (replicationStates env !! collection_key c); simpl; [apply Hg|done].
Qed.

Lemma cursor_alter_ne g env c c' :
  c' ≠ c → cursor (set_replicationStates (alter g (collection_key c)) env) c' = cursor env c'.
Proof.
  intros Hne. rewrite cursor_set_replicationStates.
  by rewrite lookup_alter_ne by distinct_keys.
Qed.

(** The shared [catch] handler records the error and rethrows; it leaves
    the stores and every cursor as they are. *)
Lemma fail_replication_run {A} name e env :
  ∃ env', fail_replication (A := A) name e env = (env', Rejected e) ∧
          db env' = db env ∧ remote env' = remote env ∧
          ∀ c, cursor env' c = cursor env c.
Proof.
  destruct (getReplicationState_run name env) as (env1 & Hget & Hdb1 & Hrem1 & _ & Hkeep1).
  eexists; split.
  { unfold fail_replication, bind. rewrite Hget. reflexivity. }
  simpl. repeat split; try done.
  intros c. unfold cursor; simpl.
  destruct (decide (name = collection_key c)) as [->|Hne].
  - rewrite !lookup_alter_eq. rewrite <- Hkeep1.
    by destruct (replicationStates env1 !! collection_key c).
  - rewrite !lookup_alter_ne by done. by rewrite Hkeep1.
Qed.

Section Replication_facts.

Variable Date_parse : string → option Z.
Variable timestamptz : string → option Z.

Lemma pull_doc_run c doc env :
  ∃ env', pull_doc Date_parse c doc env = (env', Resolved ()) ∧
          changes_only c (merge_doc Date_parse doc) env env'.
Proof.
  unfold pull_doc, try_catch, bind, findOne, gets, merge_doc, newer.
  destruct (db env c !! id doc) as [existing|] eqn:Hl.
  - destruct (js_gt _ _) eqn:Hgt.
    + eexists; split; [reflexivity|].
      unfold changes_only. rewrite db_set_collection.
      repeat split; [by rewrite Hl, Hgt|].
      intros c' Hne. by rewrite db_set_collection_ne.
    + eexists; split; [reflexivity|].
      repeat split. by rewrite Hl, Hgt.
  - unfold insert_doc. rewrite Hl.
    eexists; split; [reflexivity|].
    unfold changes_only. rewrite db_set_collection.
    repeat split; [by rewrite Hl|].
    intros c' Hne. by rewrite db_set_collection_ne.
Qed.

Lemma pull_loop_run c docs env :
  ∃ env', for_of docs (pull_doc Date_parse c) env = (env', Resolved ()) ∧
          changes_only c (merge_docs Date_parse docs) env env'.
Proof.
  revert env. induction docs as [|doc docs IH]; intros env.
  - exists env. split; [done|]. apply changes_only_refl.
  - destruct (pull_doc_run c doc env) as (env1 & Hrun1 & Hch1).
    destruct (IH env1) as (env2 & Hrun2 & Hch2).
    exists env2. split.
    + simpl. unfold bind. by rewrite Hrun1.
    + apply (changes_only_trans _ _ _ _ _ _ Hch1 Hch2).
Qed.

(** The pull when the remote query answers: every fetched document goes
    through the loop, the cursor moves to the [updated_at] of the last one
    and the number of fetched documents is returned. *)
Lemma pullFromSupabase_resolved c congregationId since env :
  select_error (remote env) c = None →
  let docs := select_rows timestamptz (tables (remote env) c) congregationId (truthy since) in
  ∃ env', pullFromSupabase Date_parse timestamptz c congregationId since env
            = (env', Resolved (length docs)) ∧
          db env' c = merge_docs Date_parse docs (db env c) ∧
          (∀ c', c' ≠ c → db env' c' = db env c') ∧
          remote env' = log_request (ReqSelect c congregationId (truthy since)) (remote env) ∧
          cursor env' c = match truthy (last_updated_at docs) with
                          | Some s => Some s
                          | None => cursor env c
                          end ∧
          ∀ c', c' ≠ c → cursor env' c' = cursor env c'.
Proof.
  intros Hsel docs.
  destruct (getReplicationState_run (collection_key c) env)
    as (env1 & Hget & Hdb1 & Hrem1 & [st1 Hst1] & Hkeep1).
  assert (Hst0 : default fresh_state (replicationStates env !! collection_key c) = st1).
  { by rewrite <- Hkeep1, Hst1. }
  set (env2 := set_remote (log_request (ReqSelect c congregationId (truthy since)))
                 (set_replicationStates (alter (set_isActive true) (collection_key c)) env1)).
  assert (Hselect : supabase_select timestamptz c congregationId (truthy since)
                      (set_replicationStates (alter (set_isActive true) (collection_key c)) env1)
                    = (env2, Resolved (Some docs, None))).
  { unfold supabase_select; simpl. by rewrite Hrem1, Hsel. }
  assert (Hcur : ∀ g env4, replicationStates env4 = replicationStates env2 →
    ∀ c', c' ≠ c →
      cursor (set_replicationStates (alter g (collection_key c)) env4) c' = cursor env c').
  { intros g env4 H4 c' Hne. rewrite cursor_set_replicationStates, H4. unfold env2; simpl.
    rewrite !lookup_alter_ne by distinct_keys.
    unfold cursor. by rewrite Hkeep1. }
  destruct docs as [|doc rest] eqn:Hdocs.
  - eexists; split.
    { unfold pullFromSupabase. apply try_catch_resolved.
      erewrite bind_run by apply Hget.
      erewrite bind_run by reflexivity.
      erewrite bind_run by apply Hselect.
      reflexivity. }
    simpl. rewrite Hdb1, Hrem1. repeat split; try done.
    + rewrite cursor_set_replicationStates; simpl.
      rewrite !lookup_alter_eq, Hst1; simpl. unfold cursor. by rewrite Hst0.
    + intros c' Hne. by apply (Hcur _ env2).
  - destruct (pull_loop_run c (doc :: rest) env2) as (env3 & Hloop & Hs3 & Hr3 & Hd3 & Ho3).
    destruct (truthy (last_updated_at (doc :: rest))) as [s|] eqn:Hlast.
    + eexists; split.
      { unfold pullFromSupabase. apply try_catch_resolved.
        erewrite bind_run by apply Hget.
        erewrite bind_run by reflexivity.
        erewrite bind_run by apply Hselect.
        cbv beta iota.
        erewrite bind_run by apply Hloop.
        rewrite Hlast.
        reflexivity. }
      simpl. rewrite Hd3, Hr3. unfold env2 at 1 2; simpl. rewrite Hdb1, Hrem1.
      repeat split; try done.
      * intros c' Hne. rewrite Ho3 by done. unfold env2; simpl. by rewrite Hdb1.
      * unfold cursor; simpl. rewrite !lookup_alter_eq, Hs3. unfold env2; simpl.
        by rewrite lookup_alter_eq, Hst1.
      * intros c' Hne. unfold cursor; simpl.
        rewrite !lookup_alter_ne by distinct_keys.
        rewrite Hs3. unfold env2; simpl.
        rewrite !lookup_alter_ne by distinct_keys.
        by rewrite Hkeep1.
    + eexists; split.
      { unfold pullFromSupabase. apply try_catch_resolved.
        erewrite bind_run by apply Hget.
        erewrite bind_run by reflexivity.
        erewrite bind_run by apply Hselect.
        cbv beta iota.
        erewrite bind_run by apply Hloop.
        rewrite Hlast.
        reflexivity. }
      simpl. rewrite Hd3, Hr3. unfold env2 at 1 2; simpl. rewrite Hdb1, Hrem1.
      repeat split; try done.
      * intros c' Hne. rewrite Ho3 by done. unfold env2; simpl. by rewrite Hdb1.
      * unfold cursor; simpl. rewrite !lookup_alter_eq, Hs3. unfold env2; simpl.
        rewrite lookup_alter_eq, Hst1; simpl. by rewrite Hst0.
      * intros c' Hne. by apply (Hcur _ env3).
Qed.

(** The pull when the remote query answers with an error: the error is
    rethrown after the one request, the local store is not touched and no
    cursor moves. *)
Lemma pullFromSupabase_rejected c congregationId since env e :
  select_error (remote env) c = Some e →
  ∃ env', pullFromSupabase Date_parse timestamptz c congregationId since env
            = (env', Rejected e) ∧
          db env' = db env ∧
          remote env' = log_request (ReqSelect c congregationId (truthy since)) (remote env) ∧
          ∀ c', cursor env' c' = cursor env c'.
Proof.
  intros Hsel.
  destruct (getReplicationState_run (collection_key c) env)
    as (env1 & Hget & Hdb1 & Hrem1 & _ & Hkeep1).
  set (env2 := set_remote (log_request (ReqSelect c congregationId (truthy since)))
                 (set_replicationStates (alter (set_isActive true) (collection_key c)) env1)).
  destruct (fail_replication_run (A := nat) (collection_key c) e env2)
    as (env3 & Hfail & Hdb3 & Hrem3 & Hcur3).
  exists env3; split.
  { unfold pullFromSupabase. rewrite <- Hfail. apply try_catch_rejected.
    erewrite bind_run by apply Hget.
    erewrite bind_run by reflexivity.
    erewrite bind_run by (unfold supabase_select; simpl; rewrite Hrem1, Hsel; reflexivity).
    reflexivity. }
  rewrite Hdb3, Hrem3; simpl. rewrite Hdb1, Hrem1. repeat split.
  intros c'. rewrite Hcur3. unfold env2, cursor; simpl.
  destruct (decide (c = c')) as [<-|Hne].
  - rewrite lookup_alter_eq, <- Hkeep1.
    by destruct (replicationStates env1 !! collection_key c).
  - rewrite lookup_alter_ne by distinct_keys.
    by rewrite Hkeep1.
Qed.

(** Whatever the remote answers, a pull makes exactly one request, the
    select scoped to its tenant and bound. *)
Lemma pullFromSupabase_requests c congregationId since env :
  requests (remote (pullFromSupabase Date_parse timestamptz c congregationId since env).1)
  = requests (remote env) ++ [ReqSelect c congregationId (truthy since)].
Proof.
  destruct (select_error (remote env) c) as [e|] eqn:Hsel.
  - destruct (pullFromSupabase_rejected c congregationId since env e Hsel)
      as (env' & Hrun & _ & Hrem & _).
    by rewrite Hrun; simpl; rewrite Hrem.
  - destruct (pullFromSupabase_resolved c congregationId since env Hsel)
      as (env' & Hrun & _ & _ & Hrem & _).
    by rewrite Hrun; simpl; rewrite Hrem.
Qed.

(** *** The merge of the fetched documents *)

Lemma merge_doc_lookup_ne doc coll key :
  key ≠ id doc → merge_doc Date_parse doc coll !! key = coll !! key.
Proof.
  intros Hne. unfold merge_doc.
  destruct (coll !! id doc) as [existing|]; [destruct (newer _ _ _)|]; try done.
  - by rewrite lookup_alter_ne.
  - by rewrite lookup_insert_ne.
Qed.

Lemma merge_doc_lookup_eq doc coll :
  merge_doc Date_parse doc coll !! id doc =
  Some (match coll !! id doc with
        | Some existing =>
            if newer Date_parse doc existing then set_fields doc existing else existing
        | None => doc
        end).
Proof.
  unfold merge_doc.
  destruct (coll !! id doc) as [existing|] eqn:Hl; [destruct (newer _ _ _)|]; try done.
  - by rewrite lookup_alter_eq, Hl.
  - by rewrite lookup_insert_eq.
Qed.

Lemma merge_docs_lookup_notin docs coll key :
  key ∉ id <$> docs → merge_docs Date_parse docs coll !! key = coll !! key.
Proof.
  revert coll. induction docs as [|doc docs IH]; intros coll Hnotin; [done|].
  rewrite fmap_cons, not_elem_of_cons in Hnotin. destruct Hnotin as [Hne Hnotin].
  unfold merge_docs; simpl. fold (merge_docs Date_parse docs (merge_doc Date_parse doc coll)).
  rewrite IH by done. by apply merge_doc_lookup_ne.
Qed.

(** With pairwise distinct ids, each fetched document meets the local state
    as it was before the pull. *)
Lemma merge_docs_lookup docs coll doc :
  NoDup (id <$> docs) → doc ∈ docs →
  merge_docs Date_parse docs coll !! id doc =
  Some (match coll !! id doc with
        | Some existing =>
            if newer Date_parse doc existing then set_fields doc existing else existing
        | None => doc
        end).
Proof.
  revert coll. induction docs as [|d docs IH]; intros coll Hnodup Hin.
  - by apply elem_of_nil in Hin.
  - rewrite fmap_cons in Hnodup. apply NoDup_cons in Hnodup as [Hd Hnodup].
    unfold merge_docs; simpl. fold (merge_docs Date_parse docs (merge_doc Date_parse d coll)).
    apply elem_of_cons in Hin as [->|Hin].
    + rewrite merge_docs_lookup_notin by done. apply merge_doc_lookup_eq.
    + assert (Hne : id doc ≠ id d).
      { intros Heq. apply Hd. rewrite <- Heq. by apply list_elem_of_fmap_2. }
      rewrite IH by done. by rewrite merge_doc_lookup_ne.
Qed.

(** What [$set] leaves under the key: the columns of the written document,
    and for every other field its value when it carries one, the stored
    value otherwise. *)
Lemma set_fields_lookup doc existing key :
  fields (set_fields doc existing) !! key
  = match fields doc !! key with
    | Some v => Some v
    | None => fields existing !! key
    end.
Proof.
  unfold set_fields; simpl. rewrite lookup_union.
  destruct (fields doc !! key), (fields existing !! key); done.
Qed.

(** [$set] with a document that carries every field of the stored one
    replaces it. *)
Lemma set_fields_same_shape doc existing :
  updated_at doc ≠ Undefined → dom (fields existing) ⊆ dom (fields doc) →
  set_fields doc existing = doc.
Proof.
  intros Hs Hdom. destruct doc as [i u t f]; simpl in *.
  unfold set_fields; simpl. f_equal.
  - by destruct u.
  - apply map_eq. intros key. rewrite lookup_union.
    destruct (f !! key) as [v|] eqn:Hf; simpl.
    + by destruct (fields existing !! key).
    + destruct (fields existing !! key) as [v|] eqn:He; [|done].
      assert (key ∈ dom f) as Hin by (apply Hdom, elem_of_dom; eauto).
      apply elem_of_dom in Hin as [v' Hv']. congruence.
Qed.

Lemma newer_updated_at doc existing :
  newer Date_parse doc existing = true → updated_at doc ≠ Undefined.
Proof.
  unfold newer, getTime, js_gt. by destruct (updated_at doc).
Qed.

(** [newer] is the strict order of the parsed instants. *)
Lemma newer_iff doc existing :
  newer Date_parse doc existing = true ↔
  ∃ server_time local_time,
    getTime Date_parse (updated_at doc) = Some server_time ∧
    getTime Date_parse (updated_at existing) = Some local_time ∧
    (local_time < server_time)%Z.
Proof.
  unfold newer, js_gt.
  destruct (getTime Date_parse (updated_at doc)) as [x|],
           (getTime Date_parse (updated_at existing)) as [y|]; split;
    try done; try (by intros (? & ? & ? & ? & ?)).
  - intros H%bool_decide_eq_true. eauto.
  - intros (? & ? & [= <-] & [= <-] & H). by apply bool_decide_eq_true.
Qed.

(** *** The remote query *)

Lemma elem_of_select_rows rows congregationId since row :
  row ∈ select_rows timestamptz rows congregationId since ↔
  row ∈ rows ∧ row_selected timestamptz congregationId since row = true.
Proof.
  unfold select_rows. rewrite merge_sort_Permutation, list_elem_of_filter.
  split; intros [? ?]; by split.
Qed.

Lemma NoDup_select_rows rows congregationId since :
  NoDup (id <$> rows) → NoDup (id <$> select_rows timestamptz rows congregationId since).
Proof.
  intros Hnodup. unfold select_rows. rewrite merge_sort_Permutation.
  eapply sublist_NoDup; [exact Hnodup|]. apply fmap_sublist, sublist_filter.
Qed.

(** C1, as the code has it. Newer-wins pull, [id] being the primary key of
    the remote table. For a document the pull query returns whose id is
    present locally: when its [updated_at] is strictly greater (as instants,
    [null] counting as the epoch), the local copy takes [id], [updated_at],
    [congregation_id] and every other field the remote version carries, and
    keeps its own value for the fields the remote version does not carry, so
    that it is the remote version exactly when that one carries every field
    of the local copy; otherwise (local greater or equal, or a date that is
    no instant) the local copy stays as it was. A local document whose id
    is not among the returned documents stays as it was. *)
Theorem pull_newer_wins c congregationId since env remote_doc local_doc :
  select_error (remote env) c = None →
  NoDup (id <$> tables (remote env) c) →
  remote_doc ∈ select_rows timestamptz (tables (remote env) c) congregationId (truthy since) →
  db env c !! id remote_doc = Some local_doc →
  let env' := (pullFromSupabase Date_parse timestamptz c congregationId since env).1 in
  (newer Date_parse remote_doc local_doc = true →
     ∃ merged,
       db env' c !! id remote_doc = Some merged ∧
       id merged = id remote_doc ∧
       updated_at merged = updated_at remote_doc ∧
       congregation_id merged = congregation_id remote_doc ∧
       (∀ key, fields merged !! key
               = match fields remote_doc !! key with
                 | Some v => Some v
                 | None => fields local_doc !! key
                 end) ∧
       (dom (fields local_doc) ⊆ dom (fields remote_doc) ↔ merged = remote_doc)) ∧
  (newer Date_parse remote_doc local_doc = false →
     db env' c !! id remote_doc = Some local_doc) ∧
  (∀ key,
     key ∉ id <$> select_rows timestamptz (tables (remote env) c) congregationId (truthy since) →
     db env' c !! key = db env c !! key).
Proof.
  intros Hsel Hnodup Hin Hlocal env'.
  destruct (pullFromSupabase_resolved c congregationId since env Hsel)
    as (env1 & Hrun & Hdb & _).
  unfold env'. rewrite Hrun; simpl. rewrite Hdb.
  split; [|split].
  - intros Hnewer.
    rewrite (merge_docs_lookup _ _ remote_doc) by (by try apply NoDup_select_rows).
    rewrite Hlocal, Hnewer.
    pose proof (newer_updated_at _ _ Hnewer) as Hcarried.
    exists (set_fields remote_doc local_doc). split; [done|]. split; [done|].
    split; [unfold set_fields; simpl; by destruct (updated_at remote_doc)|].
    split; [done|]. split; [apply set_fields_lookup|]. split.
    + intros Hdom. by apply set_fields_same_shape.
    + intros Heq key [v Hv]%elem_of_dom. apply elem_of_dom.
      pose proof (set_fields_lookup remote_doc local_doc key) as Hl.
      rewrite Heq, Hv in Hl. destruct (fields remote_doc !! key) as [w|]; [eauto|].
      congruence.
  - intros Hnewer.
    rewrite (merge_docs_lookup _ _ remote_doc) by (by try apply NoDup_select_rows).
    by rewrite Hlocal, Hnewer.
  - intros key Hkey. by apply merge_docs_lookup_notin.
Qed.

(** *** Push *)

(** What a push does: the local store is left as it is, the batch is the
    tenant's documents past the cursor read from the replication state, one
    upsert is made for a non-empty batch, and when it succeeds the cursor
    moves to the [updated_at] of the last record of the batch. *)
Lemma pushToSupabase_run c congregationId env :
  let batch := push_batch Date_parse (cursor env c) (local_docs env c congregationId) in
  ∃ env' r, pushToSupabase Date_parse c congregationId env = (env', r) ∧
    db env' = db env ∧
    requests (remote env') = requests (remote env) ++ upsert_requests c batch ∧
    (∀ c', c' ≠ c → cursor env' c' = cursor env c') ∧
    (batch = [] → r = Resolved 0 ∧ cursor env' c = cursor env c) ∧
    (batch ≠ [] → ∀ e, upsert_error (remote env) c = Some e →
       r = Rejected e ∧ cursor env' c = cursor env c) ∧
    (batch ≠ [] → upsert_error (remote env) c = None →
       r = Resolved (length batch) ∧
       cursor env' c = match truthy (last_updated_at batch) with
                       | Some s => Some s
                       | None => cursor env c
                       end).
Proof.
  intros batch.
  destruct (getReplicationState_run (collection_key c) env)
    as (env1 & Hget & Hdb1 & Hrem1 & [st1 Hst1] & Hkeep1).
  assert (Hst0 : default fresh_state (replicationStates env !! collection_key c) = st1).
  { by rewrite <- Hkeep1, Hst1. }
  assert (Hcur1 : ∀ c', cursor env1 c' = cursor env c').
  { intros c'. unfold cursor. by rewrite Hkeep1. }
  set (env2 := set_replicationStates (alter (set_isActive true) (collection_key c)) env1).
  assert (Hderef : deref (collection_key c) env2 = (env2, Resolved (set_isActive true st1))).
  { unfold deref, gets, env2; simpl. by rewrite lookup_alter_eq, Hst1. }
  assert (Hfind : find_docs c congregationId env2
                  = (env2, Resolved (local_docs env c congregationId))).
  { unfold find_docs, gets, local_docs, env2; simpl. by rewrite Hdb1. }
  assert (Hbatch : to_record <$> docsToSync Date_parse (lastSync (set_isActive true st1))
                                   (local_docs env c congregationId) = batch).
  { unfold batch, push_batch, cursor. by rewrite Hst0. }
  assert (Hbody : ∀ A (k : () → Async A),
            bind (getReplicationState (collection_key c))
                 (λ _, bind (assign (collection_key c) (set_isActive true)) k) env = k () env2).
  { intros A k. erewrite bind_run by apply Hget. by erewrite bind_run by reflexivity. }
  destruct (docsToSync Date_parse (lastSync (set_isActive true st1))
              (local_docs env c congregationId)) as [|doc rest] eqn:Hsync.
  - (* nothing to push *)
    simpl in Hbatch. rewrite <- Hbatch.
    eexists _, _; split.
    { unfold pushToSupabase. apply try_catch_resolved. rewrite Hbody.
      erewrite bind_run by apply Hderef.
      erewrite bind_run by apply Hfind.
      rewrite Hsync. reflexivity. }
    simpl. rewrite Hdb1, Hrem1, app_nil_r. repeat split; try done.
    + intros c' Hne. rewrite cursor_alter_ne by done. unfold env2.
      rewrite cursor_alter_ne by done. apply Hcur1.
    + rewrite cursor_alter_other by done. unfold env2.
      rewrite cursor_alter_other by done. apply Hcur1.
  - assert (Hne : batch ≠ []) by (by rewrite <- Hbatch).
    set (records := to_record <$> doc :: rest) in *.
    assert (Hreq : upsert_requests c batch = [ReqUpsert c records]).
    { rewrite <- Hbatch. done. }
    destruct (upsert_error (remote env) c) as [e|] eqn:Herr.
    + (* the upsert answers with an error *)
      set (env3 := set_remote (log_request (ReqUpsert c records)) env2).
      destruct (fail_replication_run (A := nat) (collection_key c) e env3)
        as (env4 & Hfail & Hdb4 & Hrem4 & Hcur4).
      exists env4, (Rejected e); split.
      { unfold pushToSupabase. rewrite <- Hfail.
        apply try_catch_rejected.
        rewrite Hbody.
        erewrite bind_run by apply Hderef.
        erewrite bind_run by apply Hfind.
        rewrite Hsync. cbv beta iota. fold records.
        erewrite bind_run
          by (unfold supabase_upsert, env2; simpl; rewrite Hrem1, Herr; reflexivity).
        reflexivity. }
      rewrite Hdb4, Hrem4; simpl. rewrite Hdb1, Hrem1, Hreq.
      split; [done|]. split; [done|]. split; [|split; [|split]].
      * intros c' Hne'. rewrite Hcur4. unfold env3, env2, cursor; simpl.
        rewrite lookup_alter_ne by distinct_keys.
        apply Hcur1.
      * intros Hempty. by destruct Hne.
      * intros _ e' [= <-]. split; [done|].
        rewrite Hcur4. unfold env3, env2, cursor; simpl.
        rewrite lookup_alter_eq, Hst1; simpl. by rewrite Hst0.
      * by intros _ [=].
    + (* the upsert is applied *)
      destruct (truthy (last_updated_at records)) as [s|] eqn:Hlast.
      * eexists _, _; split.
        { unfold pushToSupabase. apply try_catch_resolved.
          rewrite Hbody.
          erewrite bind_run by apply Hderef.
          erewrite bind_run by apply Hfind.
          rewrite Hsync. cbv beta iota. fold records.
          erewrite bind_run
            by (unfold supabase_upsert, env2; simpl; rewrite Hrem1, Herr; reflexivity).
          cbv beta iota. rewrite Hlast. reflexivity. }
        simpl. rewrite Hdb1, Hrem1, Hreq. repeat split; try done.
        -- intros c' Hne'. unfold cursor; simpl.
           rewrite !lookup_alter_ne by distinct_keys.
           by rewrite Hkeep1.
        -- by rewrite <- Hbatch.
        -- rewrite Hbatch in *. rewrite Hlast. unfold cursor; simpl.
           by rewrite !lookup_alter_eq, Hst1.
      * eexists _, _; split.
        { unfold pushToSupabase. apply try_catch_resolved.
          rewrite Hbody.
          erewrite bind_run by apply Hderef.
          erewrite bind_run by apply Hfind.
          rewrite Hsync. cbv beta iota. fold records.
          erewrite bind_run
            by (unfold supabase_upsert, env2; simpl; rewrite Hrem1, Herr; reflexivity).
          cbv beta iota. rewrite Hlast. reflexivity. }
        simpl. rewrite Hdb1, Hrem1, Hreq. repeat split; try done.
        -- intros c' Hne'. unfold cursor; simpl.
           rewrite !lookup_alter_ne by distinct_keys.
           by rewrite Hkeep1.
        -- by rewrite <- Hbatch.
        -- rewrite Hbatch in *. rewrite Hlast. unfold cursor; simpl.
           rewrite !lookup_alter_eq, Hst1; simpl. by rewrite <- Hst0.
Qed.

(** *** The value a pull returns *)

Lemma count_outcome_partition outcomes :
  length outcomes =
  count_outcome Inserted outcomes + count_outcome Updated outcomes
  + count_outcome Discarded outcomes.
Proof.
  unfold count_outcome. induction outcomes as [|o outcomes IH]; [done|].
  rewrite !filter_cons. destruct o; repeat case_decide; try done; simpl; lia.
Qed.

Lemma length_pull_outcomes docs coll :
  length (pull_outcomes Date_parse docs coll) = length docs.
Proof. revert coll. induction docs as [|doc docs IH]; intros coll; simpl; by rewrite ?IH. Qed.

(** C5, as the code has it. When the remote query answers, a pull returns
    the number of documents the query returned: each of them is counted
    whether the loop inserted it, wrote it over the local copy or discarded
    it, and the result is 0 when the query returns no document. *)
Theorem pull_returns_fetched_count c congregationId since env :
  select_error (remote env) c = None →
  let docs := select_rows timestamptz (tables (remote env) c) congregationId (truthy since) in
  let outcomes := pull_outcomes Date_parse docs (db env c) in
  (pullFromSupabase Date_parse timestamptz c congregationId since env).2
    = Resolved (length docs) ∧
  length docs = count_outcome Inserted outcomes + count_outcome Updated outcomes
                + count_outcome Discarded outcomes ∧
  (docs = [] →
   (pullFromSupabase Date_parse timestamptz c congregationId since env).2 = Resolved 0).
Proof.
  intros Hsel docs outcomes.
  destruct (pullFromSupabase_resolved c congregationId since env Hsel) as (env1 & Hrun & _).
  fold docs in Hrun. rewrite Hrun; simpl. split; [done|]. split.
  - unfold outcomes. by rewrite <- count_outcome_partition, length_pull_outcomes.
  - by intros ->.
Qed.

(** *** Tenant scope *)

Lemma select_rows_tenant rows congregationId since row :
  row ∈ select_rows timestamptz rows congregationId since →
  congregation_id row = congregationId.
Proof.
  rewrite elem_of_select_rows. unfold row_selected.
  intros [_ [H _]%andb_true_iff]. by apply bool_decide_eq_true in H.
Qed.

Lemma merge_doc_tenant d coll key doc :
  merge_doc Date_parse d coll !! key = Some doc →
  coll !! key = Some doc ∨ congregation_id doc = congregation_id d.
Proof.
  destruct (decide (key = id d)) as [->|Hne].
  - rewrite merge_doc_lookup_eq. intros [= <-].
    destruct (coll !! id d) as [existing|]; [|by right].
    destruct (newer _ _ _); [by right|by left].
  - rewrite merge_doc_lookup_ne by done. by left.
Qed.

Lemma merge_docs_tenant docs congregationId coll key doc :
  (∀ d, d ∈ docs → congregation_id d = congregationId) →
  merge_docs Date_parse docs coll !! key = Some doc →
  coll !! key = Some doc ∨ congregation_id doc = congregationId.
Proof.
  revert coll. induction docs as [|d docs IH]; intros coll Hall Hl; [by left|].
  unfold merge_docs in Hl; simpl in Hl.
  fold (merge_docs Date_parse docs (merge_doc Date_parse d coll)) in Hl.
  apply IH in Hl as [Hl|Hl]; [|by right|].
  - apply merge_doc_tenant in Hl as [Hl|Hl]; [by left|right].
    rewrite Hl. apply Hall, list_elem_of_here.
  - intros d' Hd'. apply Hall. by apply list_elem_of_further.
Qed.

Lemma local_docs_tenant env c congregationId doc :
  doc ∈ local_docs env c congregationId → congregation_id doc = congregationId.
Proof.
  unfold local_docs. rewrite merge_sort_Permutation, list_elem_of_filter. by intros [H _].
Qed.

Lemma elem_of_docsToSync since docs doc :
  doc ∈ docsToSync Date_parse since docs →
  doc ∈ docs ∧ ∀ s, truthy since = Some s → modified_since Date_parse s doc = true.
Proof.
  unfold docsToSync. destruct (truthy since) as [s|].
  - rewrite list_elem_of_filter. intros [Hm Hin]. split; [done|]. by intros ? [= <-].
  - intros Hin. split; [done|]. by intros ? [=].
Qed.

Lemma push_batch_tenant since env c congregationId record :
  record ∈ push_batch Date_parse since (local_docs env c congregationId) →
  congregation_id record = congregationId.
Proof.
  unfold push_batch. intros (doc & -> & Hin)%list_elem_of_fmap.
  apply elem_of_docsToSync in Hin as [Hin _]. simpl. by eapply local_docs_tenant.
Qed.

(** A pull writes nothing but documents of its tenant into the local store. *)
Lemma pullFromSupabase_local_writes c congregationId since env key doc :
  db (pullFromSupabase Date_parse timestamptz c congregationId since env).1 c !! key
    = Some doc →
  db env c !! key = Some doc ∨ congregation_id doc = congregationId.
Proof.
  destruct (select_error (remote env) c) as [e|] eqn:Hsel.
  - destruct (pullFromSupabase_rejected c congregationId since env e Hsel)
      as (env' & Hrun & Hdb & _).
    rewrite Hrun; simpl. rewrite Hdb. by left.
  - destruct (pullFromSupabase_resolved c congregationId since env Hsel)
      as (env' & Hrun & Hdb & _).
    rewrite Hrun; simpl. rewrite Hdb. apply merge_docs_tenant.
    intros d. apply select_rows_tenant.
Qed.

(** *** Bidirectional sync *)

(** [syncCollection] step by step: the state is looked up, the pull runs
    with the bound read from it, and the push runs in the environment the
    pull left, unless the pull threw. *)
Lemma syncCollection_unfold c congregationId env :
  let env0 := (getReplicationState (collection_key c) env).1 in
  let pull := pullFromSupabase Date_parse timestamptz c congregationId
                (truthy (cursor env c)) env0 in
  let push := pushToSupabase Date_parse c congregationId pull.1 in
  syncCollection Date_parse timestamptz c congregationId env =
  match pull.2 with
  | Rejected e => (pull.1, Rejected e)
  | Resolved n =>
      (push.1, match push.2 with
               | Resolved m => Resolved {| pulled := n; pushed := m |}
               | Rejected e => Rejected e
               end)
  end.
Proof.
  intros env0 pull push. unfold push, pull, env0, syncCollection.
  destruct (getReplicationState_run (collection_key c) env) as (env1 & Hget & _).
  erewrite bind_run by apply Hget. rewrite Hget; simpl.
  fold (cursor env c). unfold bind.
  destruct (pullFromSupabase _ _ _ _ _ env1) as [env2 [n|e]]; simpl; [|done].
  by destruct (pushToSupabase _ _ _ env2) as [env3 [m|e]].
Qed.

Lemma getReplicationState_cursor name env c :
  cursor (getReplicationState name env).1 c = cursor env c.
Proof.
  destruct (getReplicationState_run name env) as (env1 & Hget & _ & _ & _ & Hkeep).
  rewrite Hget; simpl. unfold cursor. by rewrite Hkeep.
Qed.

Lemma getReplicationState_stores name env :
  db (getReplicationState name env).1 = db env ∧
  remote (getReplicationState name env).1 = remote env.
Proof.
  destruct (getReplicationState_run name env) as (env1 & Hget & Hdb & Hrem & _).
  by rewrite Hget.
Qed.

(** A pull that resolves got an answer from the remote query. *)
Lemma pullFromSupabase_resolved_inv c congregationId since env n :
  (pullFromSupabase Date_parse timestamptz c congregationId since env).2 = Resolved n →
  select_error (remote env) c = None.
Proof.
  destruct (select_error (remote env) c) as [e|] eqn:Hsel; [|done].
  destruct (pullFromSupabase_rejected c congregationId since env e Hsel) as (env' & Hrun & _).
  by rewrite Hrun.
Qed.

(** The two steps of a sync. In every [syncCollection] the pull completes
    before the push begins, and a pull that throws ends the sync before any
    push. The pull is bounded by the [lastSync] read before it started; the
    push is bounded by the [lastSync] the pull left: the [updated_at] of the
    last fetched document when there is one (a non-empty string), the value
    from before the pull otherwise. *)
Lemma syncCollection_pull_then_push c congregationId env :
  let since := truthy (cursor env c) in
  let env0 := (getReplicationState (collection_key c) env).1 in
  let pull := pullFromSupabase Date_parse timestamptz c congregationId since env0 in
  let push := pushToSupabase Date_parse c congregationId pull.1 in
  let fetched := select_rows timestamptz (tables (remote env) c) congregationId since in
  match pull.2 with
  | Rejected e =>
      syncCollection Date_parse timestamptz c congregationId env = (pull.1, Rejected e) ∧
      requests (remote pull.1) = requests (remote env) ++ [ReqSelect c congregationId since]
  | Resolved n =>
      (syncCollection Date_parse timestamptz c congregationId env).1 = push.1 ∧
      db pull.1 c = merge_docs Date_parse fetched (db env c) ∧
      cursor pull.1 c = match truthy (last_updated_at fetched) with
                        | Some lastUpdated => Some lastUpdated
                        | None => cursor env c
                        end ∧
      requests (remote push.1)
      = requests (remote env) ++ [ReqSelect c congregationId since]
        ++ upsert_requests c
             (push_batch Date_parse (cursor pull.1 c) (local_docs pull.1 c congregationId))
  end.
Proof.
  intros since env0 pull push fetched.
  pose proof (syncCollection_unfold c congregationId env) as Hsync.
  fold since env0 pull push in Hsync. cbv zeta in Hsync.
  assert (Hs : truthy since = since) by apply truthy_idemp.
  pose proof (pullFromSupabase_requests c congregationId since env0) as Hreq.
  fold pull in Hreq. rewrite Hs in Hreq.
  destruct (getReplicationState_stores (collection_key c) env) as [Hdb0 Hrem0].
  fold env0 in Hdb0, Hrem0. rewrite Hrem0 in Hreq.
  destruct (pull.2) as [n|e] eqn:Hpull.
  - apply pullFromSupabase_resolved_inv in Hpull as Hsel.
    destruct (pullFromSupabase_resolved c congregationId since env0 Hsel)
      as (env1 & Hrun & Hdb & _ & _ & Hcur & _).
    rewrite Hs, Hrem0 in Hdb, Hcur. rewrite Hdb0 in Hdb.
    fold fetched in Hdb, Hcur. fold pull in Hrun.
    unfold env0 in Hcur. rewrite getReplicationState_cursor in Hcur.
    rewrite Hsync. unfold pull in Hpull. rewrite Hpull. split; [done|].
    split; [by rewrite Hrun|]. split; [by rewrite Hrun|].
    destruct (pushToSupabase_run c congregationId pull.1) as (env2 & r & Hrun2 & _ & Hreq2 & _).
    fold push in Hrun2. rewrite Hrun2; simpl.
    by rewrite Hreq2, Hreq, <- app_assoc.
  - rewrite Hsync. unfold pull in Hpull. by rewrite Hpull.
Qed.

Lemma truthy_nonempty s : s ≠ "" → truthy (Some s) = Some s.
Proof. intros Hs. simpl. by rewrite decide_False. Qed.

(** The first request of a sync is the select bounded by the cursor the
    replication state holds for the collection. *)
Lemma syncCollection_requests c congregationId env :
  ∃ rest,
    requests (remote (syncCollection Date_parse timestamptz c congregationId env).1)
    = requests (remote env) ++ ReqSelect c congregationId (truthy (cursor env c)) :: rest.
Proof.
  rewrite syncCollection_unfold.
  set (env0 := (getReplicationState (collection_key c) env).1).
  pose proof (pullFromSupabase_requests c congregationId (truthy (cursor env c)) env0) as Hreq.
  rewrite truthy_idemp in Hreq.
  destruct (getReplicationState_stores (collection_key c) env) as [_ Hrem0].
  fold env0 in Hrem0. rewrite Hrem0 in Hreq.
  destruct (pullFromSupabase _ _ _ _ _ env0) as [env1 [n|e]]; simpl in *.
  - destruct (pushToSupabase_run c congregationId env1) as (env2 & r & Hrun2 & _ & Hreq2 & _).
    rewrite Hrun2; simpl. rewrite Hreq2, Hreq, <- app_assoc. eauto.
  - rewrite Hreq. eauto.
Qed.

(** C10. The cursor is kept per collection name, not per tenant. Once a
    sync for tenant A has left the cursor of a collection at [s], a sync for
    tenant B on the same collection, running with the same replication
    states, bounds its select by [s] and fetches no row of B that the remote
    does not place after [s]; and a push for B transmits the records of
    [docsToSync] bounded by [s], which holds no local document of B that is
    not modified after [s]. *)
Theorem cursor_is_shared_across_tenants (A B : string) c env s :
  let envA := (syncCollection Date_parse timestamptz c A env).1 in
  cursor envA c = Some s → s ≠ "" →
  ∀ envB, replicationStates envB = replicationStates envA →
    (∃ rest,
       requests (remote (syncCollection Date_parse timestamptz c B envB).1)
       = requests (remote envB) ++ ReqSelect c B (Some s) :: rest) ∧
    (∀ row, js_gt (as_string (updated_at row) ≫= timestamptz) (timestamptz s) = false →
            row ∉ select_rows timestamptz (tables (remote envB) c) B (Some s)) ∧
    requests (remote (pushToSupabase Date_parse c B envB).1)
    = requests (remote envB)
      ++ upsert_requests c (push_batch Date_parse (Some s) (local_docs envB c B)) ∧
    (∀ doc, modified_since Date_parse s doc = false →
            doc ∉ docsToSync Date_parse (Some s) (local_docs envB c B)).
Proof.
  intros envA Hcursor Hs envB Hstates.
  assert (HcurB : cursor envB c = Some s) by (unfold cursor; by rewrite Hstates).
  split; [|split; [|split]].
  - destruct (syncCollection_requests c B envB) as [rest Hreq].
    exists rest. by rewrite Hreq, HcurB, truthy_nonempty.
  - intros row Hold [_ Hsel]%elem_of_select_rows.
    unfold row_selected in Hsel. apply andb_true_iff in Hsel as [_ Hsel]. congruence.
  - destruct (pushToSupabase_run c B envB) as (env' & r & Hrun & _ & Hreq & _).
    by rewrite Hrun; simpl; rewrite Hreq, HcurB.
  - intros doc Hold [_ Hmod]%elem_of_docsToSync.
    specialize (Hmod s (truthy_nonempty s Hs)). congruence.
Qed.

(** *** The orchestrator *)

Lemma try_catch_syncCollection c congregationId env :
  try_catch (syncCollection Date_parse timestamptz c congregationId)
            (λ _, ret {| pulled := 0; pushed := 0 |}) env
  = ((syncCollection Date_parse timestamptz c congregationId env).1,
     Resolved (recorded_result (syncCollection Date_parse timestamptz c congregationId env).2)).
Proof.
  unfold try_catch.
  by destruct (syncCollection Date_parse timestamptz c congregationId env) as [env' [r|e]].
Qed.

(** C7. Partial-failure isolation: [syncAll] runs the sync of territories,
    houses and assignments one after the other, each in the environment the
    previous one left, whether that one resolved or threw; it always
    resolves, and its result holds exactly one entry per collection: what
    the collection's sync resolved to, or [{pulled: 0, pushed: 0}] when it
    threw. *)
Theorem syncAll_isolates_failures congregationId env :
  let sync := syncCollection Date_parse timestamptz in
  let first := sync territories congregationId env in
  let second := sync houses congregationId first.1 in
  let third := sync assignments congregationId second.1 in
  ∃ results,
    syncAll Date_parse timestamptz congregationId env = (third.1, Resolved results) ∧
    results !! "territories" = Some (recorded_result first.2) ∧
    results !! "houses" = Some (recorded_result second.2) ∧
    results !! "assignments" = Some (recorded_result third.2) ∧
    dom results = {["territories"; "houses"; "assignments"]}.
Proof.
  intros sync first second third.
  eexists; split.
  { unfold syncAll; simpl.
    erewrite bind_run by apply try_catch_syncCollection.
    erewrite bind_run by apply try_catch_syncCollection.
    erewrite bind_run by apply try_catch_syncCollection.
    reflexivity. }
  split; [by rewrite lookup_insert_ne, lookup_insert_ne, lookup_insert_eq|].
  split; [by rewrite lookup_insert_ne, lookup_insert_eq|].
  split; [by rewrite lookup_insert_eq|].
  rewrite !dom_insert_L, dom_empty_L. set_solver.
Qed.

End Replication_facts.

(** ** Realtime feed *)

Lemma handle_change_upsert c payload doc env :
  eventType payload = "INSERT" ∨ eventType payload = "UPDATE" →
  new payload = AnObject (Some doc) → id doc ≠ "" →
  ∃ env', handle_change c payload env = (env', Resolved ()) ∧
          changes_only c (apply_upsert_event doc) env env'.
Proof.
  intros Hev Hnew Hid. unfold handle_change.
  rewrite decide_True by done. rewrite Hnew. simpl.
  rewrite decide_False by done.
  unfold try_catch, bind, findOne, gets, apply_upsert_event.
  destruct (db env c !! id doc) as [existing|] eqn:Hl.
  - eexists; split; [reflexivity|].
    unfold changes_only. rewrite db_set_collection, Hl.
    repeat split. intros c' Hne. by rewrite db_set_collection_ne.
  - unfold insert_doc. rewrite Hl.
    eexists; split; [reflexivity|].
    unfold changes_only. rewrite db_set_collection, Hl.
    repeat split. intros c' Hne. by rewrite db_set_collection_ne.
Qed.

(** The event handler and the pull loop agree on a document that is absent
    locally or strictly newer than the local copy, and only there. *)
Lemma realtime_agrees_with_pull_when_newer Date_parse doc coll :
  (∀ existing, coll !! id doc = Some existing → newer Date_parse doc existing = true) →
  apply_upsert_event doc coll = merge_doc Date_parse doc coll.
Proof.
  intros Hnewer. unfold apply_upsert_event, merge_doc.
  destruct (coll !! id doc) as [existing|]; [|done]. by rewrite Hnewer.
Qed.

Lemma realtime_differs_from_pull_otherwise Date_parse doc coll existing :
  coll !! id doc = Some existing → newer Date_parse doc existing = false →
  apply_upsert_event doc coll !! id doc = Some (set_fields doc existing) ∧
  merge_doc Date_parse doc coll !! id doc = Some existing.
Proof.
  intros Hl Hnewer. unfold apply_upsert_event, merge_doc. rewrite Hl, Hnewer.
  split; [|done]. by rewrite lookup_alter_eq, Hl.
Qed.

Lemma handle_change_delete c payload oldId env :
  eventType payload = "DELETE" → old payload = AnObject (Some oldId) →
  ∃ env', handle_change c payload env = (env', Resolved ()) ∧
          changes_only c (delete oldId) env env'.
Proof.
  intros Hev Hold. unfold handle_change.
  rewrite decide_False by (rewrite Hev; intros [?|?]; done).
  rewrite decide_True by done. rewrite Hold.
  unfold try_catch, bind, findOne, gets.
  destruct (db env c !! oldId) as [existing|] eqn:Hl.
  - eexists; split; [reflexivity|].
    unfold changes_only. rewrite db_set_collection.
    repeat split. intros c' Hne. by rewrite db_set_collection_ne.
  - exists env; split; [reflexivity|].
    repeat split. by rewrite delete_id.
Qed.

Lemma bind_rejected {A B} (m : Async A) (k : A → Async B) env env1 e :
  m env = (env1, Rejected e) → bind m k env = (env1, Rejected e).
Proof. intros H. unfold bind. by rewrite H. Qed.

Lemma deliver_matching c congregationId callback change env :
  change_table change = c → change_tenant change = congregationId →
  isValidPayload (change_payload change) = true →
  deliver (subscribeToChanges c congregationId callback) change env
  = callback (change_payload change) env.
Proof.
  intros Htable Htenant Hvalid. unfold deliver, subscribeToChanges; simpl.
  rewrite decide_True by (by rewrite Htable, Htenant). by rewrite Hvalid.
Qed.

Lemma deliver_other_tenant c congregationId callback change env :
  change_tenant change ≠ congregationId →
  deliver (subscribeToChanges c congregationId callback) change env = (env, Resolved ()).
Proof.
  intros Hne. unfold deliver, subscribeToChanges; simpl.
  rewrite decide_False; [done|]. intros [_ Heq]. simplify_eq.
Qed.

(** C6. Delete always wins on the realtime feed: a delete event for the
    subscribed table and tenant that the listener accepts and that carries
    id X removes the local document with id X, with no look at any
    [updated_at], and leaves every other document as it was. *)
Theorem realtime_delete_always_wins c congregationId change oldId env :
  change_table change = c →
  change_tenant change = congregationId →
  isValidPayload (change_payload change) = true →
  eventType (change_payload change) = "DELETE" →
  old (change_payload change) = AnObject (Some oldId) →
  let run := deliver (subscribeToChanges c congregationId (handle_change c)) change env in
  run.2 = Resolved () ∧
  db run.1 c !! oldId = None ∧
  ∀ key, key ≠ oldId → db run.1 c !! key = db env c !! key.
Proof.
  intros Htable Htenant Hvalid Hev Hold run. unfold run.
  rewrite deliver_matching by done.
  destruct (handle_change_delete c _ oldId env Hev Hold) as (env' & Hrun & _ & _ & Hdb & _).
  rewrite Hrun; simpl. rewrite Hdb. split; [done|]. split.
  - apply lookup_delete_eq.
  - intros key Hne. by apply lookup_delete_ne.
Qed.

Lemma initializeReplication_subscriptions congregationId sub :
  sub ∈ initializeReplication congregationId true ↔
  ∃ c, sub = subscribeToChanges c congregationId (handle_change c).
Proof.
  unfold initializeReplication. rewrite list_elem_of_fmap. split.
  - intros (c & -> & _). eauto.
  - intros (c & ->). exists c. split; [done|]. destruct c; set_solver.
Qed.

(** ** Opening the local store *)

(** Once a promise is stored, [initDatabase] returns it for any tenant and
    whatever the storage would answer. *)
Lemma initDatabase_open storage congregationId st promise :
  RxDB.dbPromise st = Some promise →
  RxDB.initDatabase storage congregationId st = (st, promise).
Proof. intros H. unfold RxDB.initDatabase. by rewrite H. Qed.

Lemma initDatabase_sets_promise storage congregationId st :
  RxDB.dbPromise (RxDB.initDatabase storage congregationId st).1
  = Some (RxDB.initDatabase storage congregationId st).2.
Proof.
  unfold RxDB.initDatabase. by destruct (RxDB.dbPromise st) as [promise|] eqn:H.
Qed.

(** Repeated opens return the same promise, whichever tenants they name. *)
Lemma initDatabase_again storage storage' tenant other st :
  RxDB.initDatabase storage' other (RxDB.initDatabase storage tenant st).1
  = RxDB.initDatabase storage tenant st.
Proof.
  rewrite (initDatabase_open storage' other _ _ (initDatabase_sets_promise storage tenant st)).
  by destruct (RxDB.initDatabase storage tenant st).
Qed.

(** ** Tenant isolation *)

Section Tenant_isolation.

Variable Date_parse : string → option Z.
Variable timestamptz : string → option Z.

(** C8. Tenant isolation, for distinct tenants A and B. A pull for A makes
    one request, a select scoped to A; no row of B is among the rows it
    fetches, it writes no document of B into the local store and leaves the
    remote tables as they are. A push for A leaves the local store as it is
    and transmits no document of B. A subscription for A is never handed a
    change of a row of B. *)
Theorem tenant_isolation (A B : string) :
  A ≠ B →
  (∀ c since env,
     let run := pullFromSupabase Date_parse timestamptz c A since env in
     requests (remote run.1) = requests (remote env) ++ [ReqSelect c A (truthy since)] ∧
     (∀ row, row ∈ select_rows timestamptz (tables (remote env) c) A (truthy since) →
             congregation_id row ≠ B) ∧
     (∀ key doc, congregation_id doc = B →
                 db run.1 c !! key = Some doc → db env c !! key = Some doc) ∧
     tables (remote run.1) = tables (remote env)) ∧
  (∀ c env,
     let run := pushToSupabase Date_parse c A env in
     db run.1 = db env ∧
     ∃ batch,
       requests (remote run.1) = requests (remote env) ++ upsert_requests c batch ∧
       ∀ record, record ∈ batch → congregation_id record ≠ B) ∧
  (∀ c callback change env,
     change_tenant change = B →
     deliver (subscribeToChanges c A callback) change env = (env, Resolved ())).
Proof.
  intros Hne. split; [|split].
  - intros c since env run. split; [apply pullFromSupabase_requests|]. split; [|split].
    + intros row Hrow%select_rows_tenant. congruence.
    + intros key doc Hdoc Hl.
      apply pullFromSupabase_local_writes in Hl as [Hl|Hl]; [done|congruence].
    + unfold run.
      destruct (select_error (remote env) c) as [e|] eqn:Hsel.
      * destruct (pullFromSupabase_rejected Date_parse timestamptz c A since env e Hsel)
          as (env' & Hrun & _ & Hrem & _).
        by rewrite Hrun; simpl; rewrite Hrem.
      * destruct (pullFromSupabase_resolved Date_parse timestamptz c A since env Hsel)
          as (env' & Hrun & _ & _ & Hrem & _).
        by rewrite Hrun; simpl; rewrite Hrem.
  - intros c env run. unfold run.
    destruct (pushToSupabase_run Date_parse c A env) as (env' & r & Hrun & Hdb & Hreq & _).
    rewrite Hrun; simpl. split; [done|].
    eexists; split; [exact Hreq|].
    intros record Hrec%push_batch_tenant. congruence.
  - intros c callback change env Htenant.
    apply deliver_other_tenant. congruence.
Qed.

End Tenant_isolation.

(** ** Newer-wins pull on a sample *)

(** The remote copy of [t1] is the newer one: the local copy takes its
    [updated_at] and keeps the field only the local copy has. *)
Lemma pull_newer_wins_sample :
  ∃ merged,
    db (pullFromSupabase Sample.clock Sample.clock territories "A" None
          Scenario.env_local_note).1 territories !! "t1" = Some merged ∧
    updated_at merged = Present Sample.jan2 ∧
    fields merged !! "local_note" = Some (JStr "call back").
Proof.
  destruct (pull_newer_wins Sample.clock Sample.clock territories "A" None
              Scenario.env_local_note (Sample.doc "t1" Sample.jan2 "A") Scenario.noted_t1)
    as [Hnewer _].
  - reflexivity.
  - simpl. apply NoDup_singleton.
  - vm_compute. apply list_elem_of_here.
  - reflexivity.
  - destruct (Hnewer eq_refl) as (merged & Hstored & _ & Hupdated & _ & Hfields & _).
    exists merged. split; [exact Hstored|]. split; [exact Hupdated|].
    rewrite Hfields. reflexivity.
Defined.

(** The claim that the local copy equals the version with the strictly
    greater [updated_at] fails here: the remote version of [t1] is the
    newer one, and after the pull the local copy is not that version, as it
    still holds [local_note]. *)
Lemma pull_merges_into_the_local_copy :
  ¬ (newer Sample.clock (Sample.doc "t1" Sample.jan2 "A") Scenario.noted_t1 = true →
     db (pullFromSupabase Sample.clock Sample.clock territories "A" None
           Scenario.env_local_note).1 territories !! "t1"
     = Some (Sample.doc "t1" Sample.jan2 "A")).
Proof.
  intros Hclaim. specialize (Hclaim eq_refl). vm_compute in Hclaim. discriminate.
Qed.

(** A [null] [updated_at] is the epoch for the comparison: a local copy
    holding [null] is overwritten by a remote version dated [jan1], and a
    remote version holding [null] is discarded, being no later than a local
    copy dated at the epoch. *)
Lemma pull_reads_null_as_the_epoch :
  db (pullFromSupabase Scenario.clock Sample.clock territories "A" None
        Scenario.env_local_null).1 territories !! "t1"
  = Some (Sample.doc "t1" Sample.jan1 "A") ∧
  db (pullFromSupabase Scenario.clock Sample.clock territories "A" None
        Scenario.env_remote_null).1 territories !! "t1"
  = Some (Sample.doc "t1" Scenario.epoch "A").
Proof. vm_compute. done. Qed.

(** ** The value a pull returns, on samples *)

Lemma pull_returns_fetched_count_sample :
  (pullFromSupabase Sample.clock Sample.clock territories "A" None
     Sample.env_remote_newer).2
  = Resolved 1.
Proof.
  exact (proj1 (pull_returns_fetched_count Sample.clock Sample.clock territories "A" None
                  Sample.env_remote_newer eq_refl)).
Defined.

(** The returned value is not the number of documents inserted or updated:
    the remote copy of [t1] is older than the local one and is discarded,
    nothing is inserted or updated, and the pull returns 1. *)
Lemma pull_counts_discarded_documents :
  ¬ ∀ n,
      (pullFromSupabase Sample.clock Sample.clock territories "A" None
         Sample.env_local_newer).2 = Resolved n →
      n = count_outcome Inserted
            (pull_outcomes Sample.clock
               (select_rows Sample.clock
                  (tables (remote Sample.env_local_newer) territories) "A" None)
               (db Sample.env_local_newer territories))
          + count_outcome Updated
              (pull_outcomes Sample.clock
                 (select_rows Sample.clock
                    (tables (remote Sample.env_local_newer) territories) "A" None)
                 (db Sample.env_local_newer territories)).
Proof.
  intros Hclaim. specialize (Hclaim 1 eq_refl). vm_compute in Hclaim. discriminate.
Qed.

(** ** The cursor after a push *)

(** C4 at a failing input. Two local documents are pushed in one batch, in
    the order the local query returns them; the cursor becomes the
    [updated_at] of the last record, [jan1], although the batch contains a
    record updated on [jan2]. *)
Theorem push_cursor_is_not_the_maximum :
  (pushToSupabase Sample.clock territories "A" Sample.env_two_local).2 = Resolved 2 ∧
  requests (remote (pushToSupabase Sample.clock territories "A" Sample.env_two_local).1)
    = [ReqUpsert territories [Sample.doc "a" Sample.jan2 "A"; Sample.doc "b" Sample.jan1 "A"]] ∧
  cursor (pushToSupabase Sample.clock territories "A" Sample.env_two_local).1 territories
    = Some Sample.jan1 ∧
  js_gt (Sample.clock Sample.jan2) (Sample.clock Sample.jan1) = true.
Proof. vm_compute. done. Qed.

(** ** Realtime insert and update events *)

(** C3 at a failing input. The local copy of [t1] was edited on [jan3]; an
    update event carrying the state of [jan1] is written over it, whereas
    the pull loop given the same document keeps the local copy. *)
Theorem realtime_update_overwrites_newer_local :
  db (deliver (subscribeToChanges territories "A" (handle_change territories))
        {| change_table := territories; change_tenant := "A";
           change_payload := Sample.stale_update |}
        Sample.env_local_edit).1 territories !! "t1"
    = Some (Sample.doc "t1" Sample.jan1 "A") ∧
  db (pull_doc Sample.clock territories (Sample.doc "t1" Sample.jan1 "A")
        Sample.env_local_edit).1 territories !! "t1"
    = Some (Sample.doc "t1" Sample.jan3 "A").
Proof. vm_compute. done. Qed.

(** ** Opening the store for another tenant *)

(** C9 at a failing input. With the store of tenant A open, opening for
    tenant B returns the instance created for A, under A's name; and when
    the open for A failed, the open for B is handed that failure. *)
Theorem initDatabase_returns_the_open_instance :
  (RxDB.open_all ["A"; "B"] RxDB.initial).2
    = [Resolved (RxDB.createRxDatabase "A" 0); Resolved (RxDB.createRxDatabase "A" 0)] ∧
  (RxDB.initDatabase None "B" (RxDB.initDatabase None "A" RxDB.initial).1).2
    = Resolved (RxDB.createRxDatabase "A" 0) ∧
  RxDB.name (RxDB.createRxDatabase "A" 0) = "territory_mapper_A" ∧
  (RxDB.initDatabase None "B"
     (RxDB.initDatabase (Some (ErrorObject "StorageUnavailable")) "A" RxDB.initial).1).2
    = Rejected (ErrorObject "StorageUnavailable").
Proof. vm_compute. done. Qed.

(** ** Delete events on a sample *)

(** The local copy of [t1], edited on [jan3], is removed by a delete event. *)
Lemma realtime_delete_sample :
  db (deliver (subscribeToChanges territories "A" (handle_change territories))
        {| change_table := territories; change_tenant := "A";
           change_payload := Sample.delete_t1 |}
        Sample.env_local_edit).1 territories !! "t1" = None.
Proof.
  exact (proj1 (proj2 (realtime_delete_always_wins territories "A"
                  {| change_table := territories; change_tenant := "A";
                     change_payload := Sample.delete_t1 |}
                  "t1" Sample.env_local_edit eq_refl eq_refl eq_refl eq_refl eq_refl))).
Defined.

(** ** Tenant isolation on a sample *)

(** A subscription of tenant A is not handed the deletion of a row of
    tenant B, and the local store stays as it is. *)
Lemma tenant_isolation_sample :
  deliver (subscribeToChanges territories "A" (handle_change territories))
    {| change_table := territories; change_tenant := "B";
       change_payload := Sample.delete_t1 |}
    Sample.env_local_edit
  = (Sample.env_local_edit, Resolved ()).
Proof.
  refine (proj2 (proj2 (tenant_isolation Sample.clock Sample.clock "A" "B" _))
            territories (handle_change territories)
            {| change_table := territories; change_tenant := "B";
               change_payload := Sample.delete_t1 |}
            Sample.env_local_edit eq_refl).
  discriminate.
Defined.

(** ** The bound of the push inside a sync *)

(** C2 at a failing input. The local document [a], written on [jan2], was
    never synchronised and no cursor exists; the remote holds [b], written
    on [jan3]. The pull of the sync fetches [b] and moves the cursor to
    [jan3]; the push then reads that cursor, not the one recorded before
    the pull, and finds nothing to send. The next sync sends nothing
    either: [a] never reaches the remote. Bounded by the cursor recorded
    before the pull, the push would have sent [a]. *)
Theorem sync_leaves_unsynchronised_document_behind :
  let a := Sample.doc "a" Sample.jan2 "A" in
  let b := Sample.doc "b" Sample.jan3 "A" in
  let env := Sample.env_unsynced_local in
  let once := syncCollection Sample.clock Sample.clock territories "A" env in
  let twice := syncCollection Sample.clock Sample.clock territories "A" once.1 in
  db env territories !! "a" = Some a ∧
  tables (remote env) territories = [b] ∧
  cursor env territories = None ∧
  once.2 = Resolved {| pulled := 1; pushed := 0 |} ∧
  cursor once.1 territories = Some Sample.jan3 ∧
  requests (remote once.1) = [ReqSelect territories "A" None] ∧
  twice.2 = Resolved {| pulled := 0; pushed := 0 |} ∧
  requests (remote twice.1)
  = [ReqSelect territories "A" None; ReqSelect territories "A" (Some Sample.jan3)] ∧
  tables (remote twice.1) territories = [b] ∧
  db twice.1 territories !! "a" = Some a ∧
  push_batch Sample.clock (cursor env territories) (local_docs once.1 territories "A")
  = [a; b].
Proof. vm_compute. done. Qed.

(** ** The shared cursor on a sample *)

(** After the sync of tenant A moved the cursor of [territories] to [jan3],
    the row of tenant B dated [jan2] is not fetched by a sync for B. *)
Lemma cursor_is_shared_sample :
  Sample.doc "b1" Sample.jan2 "B"
  ∉ select_rows Sample.clock
      (tables (remote (syncCollection Sample.clock Sample.clock territories "A"
                         Sample.env_two_tenants).1) territories)
      "B" (Some Sample.jan3).
Proof.
  refine (proj1 (proj2 (cursor_is_shared_across_tenants Sample.clock Sample.clock
                          "A" "B" territories Sample.env_two_tenants Sample.jan3 _ _
                          (syncCollection Sample.clock Sample.clock territories "A"
                             Sample.env_two_tenants).1 eq_refl))
                (Sample.doc "b1" Sample.jan2 "B") _).
  - vm_compute. reflexivity.
  - discriminate.
  - reflexivity.
Defined.

(** ** The orchestrator on a sample *)

(** The select on [houses] fails: its entry is zeros, its error is kept in
    the replication state, and the two other collections are synchronised. *)
Lemma syncAll_houses_failure_sample :
  (syncAll Sample.clock Sample.clock "A" Sample.env_houses_down).2
  = Resolved {[ "territories" := {| pulled := 1; pushed := 0 |};
                "houses" := {| pulled := 0; pushed := 0 |};
                "assignments" := {| pulled := 1; pushed := 0 |} ]} ∧
  error <$> (replicationStates
               (syncAll Sample.clock Sample.clock "A" Sample.env_houses_down).1 !! "houses")
  = Some (Some "network") ∧
  dom (db (syncAll Sample.clock Sample.clock "A" Sample.env_houses_down).1 assignments)
  = {["s1"]}.
Proof. vm_compute. done. Qed.

(** * Further properties of the replication engine *)

(** ** The environment a pull or a push leaves *)

Lemma getReplicationState_lookup name env :
  replicationStates (getReplicationState name env).1 !! name
  = Some (default fresh_state (replicationStates env !! name)).
Proof.
  unfold getReplicationState.
  destruct (replicationStates env !! name) as [st|] eqn:Hst; simpl; [done|].
  by rewrite lookup_insert_eq.
Qed.

Lemma getReplicationState_lookup_ne name env key :
  key ≠ name →
  replicationStates (getReplicationState name env).1 !! key = replicationStates env !! key.
Proof.
  intros Hne. unfold getReplicationState.
  destruct (replicationStates env !! name) as [st|] eqn:Hst; simpl; [done|].
  by rewrite lookup_insert_ne.
Qed.

Lemma getReplicationState_eq name env :
  getReplicationState name env
  = ((getReplicationState name env).1,
     Resolved (default fresh_state (replicationStates env !! name))).
Proof.
  unfold getReplicationState. by destruct (replicationStates env !! name) as [st|].
Qed.

Lemma fail_replication_eq {A} name e env :
  fail_replication (A := A) name e env
  = (set_replicationStates (alter (set_error (Some (error_message e))) name)
       (set_replicationStates (alter (set_isActive false) name)
          (getReplicationState name env).1),
     Rejected e).
Proof.
  unfold fail_replication. erewrite bind_run by apply getReplicationState_eq. reflexivity.
Qed.

Section Replication_runs.

Variable Date_parse : string → option Z.
Variable timestamptz : string → option Z.

Lemma pullFromSupabase_resolved_eq c congregationId since env :
  select_error (remote env) c = None →
  let docs := select_rows timestamptz (tables (remote env) c) congregationId (truthy since) in
  let merged := (for_of docs (pull_doc Date_parse c)
                   (pull_started c congregationId since env)).1 in
  pullFromSupabase Date_parse timestamptz c congregationId since env
  = (set_replicationStates (alter (set_isActive false) (collection_key c))
       match truthy (last_updated_at docs) with
       | Some s =>
           set_replicationStates (alter (set_lastSync (Some s)) (collection_key c)) merged
       | None => merged
       end,
     Resolved (length docs)).
Proof.
  intros Hsel docs merged.
  destruct (getReplicationState_stores (collection_key c) env) as [_ Hrem0].
  assert (Hselect : supabase_select timestamptz c congregationId (truthy since)
                      (set_replicationStates (alter (set_isActive true) (collection_key c))
                         (getReplicationState (collection_key c) env).1)
                    = (pull_started c congregationId since env, Resolved (Some docs, None))).
  { unfold supabase_select; simpl. by rewrite Hrem0, Hsel. }
  unfold pullFromSupabase. apply try_catch_resolved.
  erewrite bind_run by apply getReplicationState_eq.
  erewrite bind_run by reflexivity.
  erewrite bind_run by apply Hselect.
  cbv beta iota. unfold merged. clear merged.
  destruct docs as [|doc rest]; [reflexivity|].
  destruct (pull_loop_run Date_parse c (doc :: rest) (pull_started c congregationId since env))
    as (env3 & Hloop & _).
  erewrite bind_run by apply Hloop. rewrite Hloop; simpl.
  by destruct (truthy (last_updated_at (doc :: rest))).
Qed.

Lemma pullFromSupabase_rejected_eq c congregationId since env e :
  select_error (remote env) c = Some e →
  pullFromSupabase Date_parse timestamptz c congregationId since env
  = fail_replication (collection_key c) e (pull_started c congregationId since env).
Proof.
  intros Hsel.
  destruct (getReplicationState_stores (collection_key c) env) as [_ Hrem0].
  unfold pullFromSupabase. apply try_catch_rejected.
  erewrite bind_run by apply getReplicationState_eq.
  erewrite bind_run by reflexivity.
  erewrite bind_run by (unfold supabase_select; simpl; rewrite Hrem0, Hsel; reflexivity).
  reflexivity.
Qed.

Lemma pushToSupabase_eq c congregationId env :
  let name := collection_key c in
  let batch := push_batch Date_parse (cursor env c) (local_docs env c congregationId) in
  let sent := set_remote (log_request (ReqUpsert c batch)) (push_started c env) in
  let applied := set_remote (upsert_applied c batch) sent in
  pushToSupabase Date_parse c congregationId env =
  match batch with
  | [] => (set_replicationStates (alter (set_isActive false) name) (push_started c env),
           Resolved 0)
  | _ =>
      match upsert_error (remote env) c with
      | Some e => fail_replication name e sent
      | None =>
          (set_replicationStates (alter (set_isActive false) name)
             (set_replicationStates (alter (set_pendingChanges 0) name)
                match truthy (last_updated_at batch) with
                | Some s => set_replicationStates (alter (set_lastSync (Some s)) name) applied
                | None => applied
                end),
           Resolved (length batch))
      end
  end.
Proof.
  intros name batch sent applied.
  destruct (getReplicationState_stores (collection_key c) env) as [Hdb0 Hrem0].
  assert (Hderef : deref name (push_started c env)
                   = (push_started c env,
                      Resolved (set_isActive true
                                  (default fresh_state (replicationStates env !! name))))).
  { unfold deref, gets, push_started; simpl.
    by rewrite lookup_alter_eq, getReplicationState_lookup. }
  assert (Hfind : find_docs c congregationId (push_started c env)
                  = (push_started c env, Resolved (local_docs env c congregationId))).
  { unfold find_docs, gets, local_docs, push_started; simpl. by rewrite Hdb0. }
  assert (Hbody : ∀ A (k : () → Async A),
            bind (getReplicationState name)
                 (λ _, bind (assign name (set_isActive true)) k) env
            = k () (push_started c env)).
  { intros A k. erewrite bind_run by apply getReplicationState_eq.
    by erewrite bind_run by reflexivity. }
  assert (Hbatch : to_record <$> docsToSync Date_parse
                     (lastSync (set_isActive true
                                  (default fresh_state (replicationStates env !! name))))
                     (local_docs env c congregationId) = batch) by done.
  destruct (docsToSync Date_parse _ (local_docs env c congregationId)) as [|doc rest] eqn:Hsync.
  - simpl in Hbatch. rewrite <- Hbatch.
    unfold pushToSupabase. apply try_catch_resolved. fold name. rewrite Hbody.
    erewrite bind_run by apply Hderef.
    erewrite bind_run by apply Hfind.
    rewrite Hsync. reflexivity.
  - assert (Hcons : batch = to_record doc :: (to_record <$> rest)) by (by rewrite <- Hbatch).
    rewrite Hcons. rewrite <- Hcons.
    destruct (upsert_error (remote env) c) as [e|] eqn:Herr.
    + unfold pushToSupabase. apply try_catch_rejected. fold name. rewrite Hbody.
      erewrite bind_run by apply Hderef.
      erewrite bind_run by apply Hfind.
      rewrite Hsync. cbv beta iota. rewrite Hbatch.
      erewrite bind_run
        by (unfold supabase_upsert, push_started; simpl; rewrite Hrem0, Herr; reflexivity).
      reflexivity.
    + unfold pushToSupabase. apply try_catch_resolved. fold name. rewrite Hbody.
      erewrite bind_run by apply Hderef.
      erewrite bind_run by apply Hfind.
      rewrite Hsync. cbv beta iota. rewrite Hbatch.
      erewrite bind_run
        by (unfold supabase_upsert, push_started; simpl; rewrite Hrem0, Herr; reflexivity).
      cbv beta iota. by destruct (truthy (last_updated_at batch)).
Qed.

End Replication_runs.

(** ** Pull: repetition, local documents, failure, increments *)

Lemma js_gt_irrefl t : js_gt t t = false.
Proof. destruct t as [x|]; simpl; [|done]. apply bool_decide_eq_false. lia. Qed.

Section Pull_more.

Variable Date_parse : string → option Z.
Variable timestamptz : string → option Z.

Lemma newer_set_fields doc existing :
  newer Date_parse doc existing = true →
  newer Date_parse doc (set_fields doc existing) = false.
Proof.
  intros Hcarried%newer_updated_at. unfold newer, set_fields; simpl.
  destruct (updated_at doc); [done|apply js_gt_irrefl..].
Qed.

(** Merging the same documents again changes nothing. *)
Lemma merge_docs_idemp docs coll :
  NoDup (id <$> docs) →
  merge_docs Date_parse docs (merge_docs Date_parse docs coll) = merge_docs Date_parse docs coll.
Proof.
  intros Hnodup. apply map_eq. intros key.
  destruct (decide (key ∈ id <$> docs)) as [Hin|Hnotin].
  - apply list_elem_of_fmap in Hin as (doc & -> & Hin).
    rewrite (merge_docs_lookup _ _ (merge_docs Date_parse docs coll) doc) by done.
    rewrite (merge_docs_lookup _ _ coll doc) by done.
    destruct (coll !! id doc) as [existing|].
    + destruct (newer Date_parse doc existing) eqn:Hnewer.
      * by rewrite newer_set_fields.
      * by rewrite Hnewer.
    + unfold newer. by rewrite js_gt_irrefl.
  - by rewrite !merge_docs_lookup_notin.
Qed.

Lemma merge_doc_keeps doc coll key :
  is_Some (coll !! key) → is_Some (merge_doc Date_parse doc coll !! key).
Proof.
  intros Hsome. destruct (decide (key = id doc)) as [->|Hne].
  - rewrite merge_doc_lookup_eq. eauto.
  - by rewrite merge_doc_lookup_ne.
Qed.

Lemma merge_docs_keeps docs coll key :
  is_Some (coll !! key) → is_Some (merge_docs Date_parse docs coll !! key).
Proof.
  revert coll. induction docs as [|doc docs IH]; intros coll Hsome; [done|].
  unfold merge_docs; simpl. apply IH. by apply merge_doc_keeps.
Qed.

(** The stores a pull leaves, whatever the remote answers. *)
Lemma pullFromSupabase_stores c congregationId since env :
  let env' := (pullFromSupabase Date_parse timestamptz c congregationId since env).1 in
  tables (remote env') = tables (remote env) ∧
  select_error (remote env') = select_error (remote env) ∧
  upsert_error (remote env') = upsert_error (remote env) ∧
  (∀ c', c' ≠ c → db env' c' = db env c') ∧
  db env' c = match select_error (remote env) c with
              | Some _ => db env c
              | None =>
                  merge_docs Date_parse
                    (select_rows timestamptz (tables (remote env) c) congregationId (truthy since))
                    (db env c)
              end.
Proof.
  intros env'. unfold env'.
  destruct (select_error (remote env) c) as [e|] eqn:Hsel.
  - destruct (pullFromSupabase_rejected Date_parse timestamptz c congregationId since env e Hsel)
      as (env1 & Hrun & Hdb & Hrem & _).
    rewrite Hrun; simpl. rewrite Hrem, Hdb. by repeat split.
  - destruct (pullFromSupabase_resolved Date_parse timestamptz c congregationId since env Hsel)
      as (env1 & Hrun & Hdb & Hother & Hrem & _).
    rewrite Hrun; simpl. rewrite Hrem. by repeat split.
Qed.

(** X1. Pulling twice is pulling once: when the remote query answers and
    [id] is the primary key of the table, a second pull with the same
    arguments leaves the collection exactly as the first pull left it. *)
Theorem pull_twice_is_pull_once c congregationId since env :
  select_error (remote env) c = None →
  NoDup (id <$> tables (remote env) c) →
  let once := (pullFromSupabase Date_parse timestamptz c congregationId since env).1 in
  let twice := (pullFromSupabase Date_parse timestamptz c congregationId since once).1 in
  db twice c = db once c.
Proof.
  intros Hsel Hnodup once twice.
  destruct (pullFromSupabase_stores c congregationId since env)
    as (Htab & Herr & _ & _ & Hdb).
  fold once in Htab, Herr, Hdb. rewrite Hsel in Hdb.
  destruct (pullFromSupabase_stores c congregationId since once) as (_ & _ & _ & _ & Hdb2).
  fold twice in Hdb2. rewrite Herr, Hsel, Htab in Hdb2.
  rewrite Hdb2, Hdb. apply merge_docs_idemp. by apply NoDup_select_rows.
Qed.

(** X2. A pull never removes a local document, leaves every document whose
    id is not among the fetched rows as it was, and touches no other
    collection, whatever the remote answers. *)
Theorem pull_keeps_local_documents c congregationId since env :
  let env' := (pullFromSupabase Date_parse timestamptz c congregationId since env).1 in
  let fetched := select_rows timestamptz (tables (remote env) c) congregationId (truthy since) in
  (∀ key, is_Some (db env c !! key) → is_Some (db env' c !! key)) ∧
  (∀ key, key ∉ id <$> fetched → db env' c !! key = db env c !! key) ∧
  (∀ c', c' ≠ c → db env' c' = db env c').
Proof.
  intros env' fetched.
  destruct (pullFromSupabase_stores c congregationId since env) as (_ & _ & _ & Hother & Hdb).
  fold env' in Hother, Hdb. rewrite Hdb. split; [|split; [|done]].
  - intros key Hsome. destruct (select_error (remote env) c); [done|].
    by apply merge_docs_keeps.
  - intros key Hnotin. destruct (select_error (remote env) c); [done|].
    by apply merge_docs_lookup_notin.
Qed.

(** X3. A document returned by the pull query whose id is absent locally is
    inserted as it came. *)
Theorem pull_inserts_absent_documents c congregationId since env remote_doc :
  select_error (remote env) c = None →
  NoDup (id <$> tables (remote env) c) →
  remote_doc ∈ select_rows timestamptz (tables (remote env) c) congregationId (truthy since) →
  db env c !! id remote_doc = None →
  db (pullFromSupabase Date_parse timestamptz c congregationId since env).1 c !! id remote_doc
  = Some remote_doc.
Proof.
  intros Hsel Hnodup Hin Habsent.
  destruct (pullFromSupabase_stores c congregationId since env) as (_ & _ & _ & _ & Hdb).
  rewrite Hdb, Hsel.
  rewrite (merge_docs_lookup _ _ _ remote_doc) by (by try apply NoDup_select_rows).
  by rewrite Habsent.
Qed.

(** *** The order of the fetched rows *)

#[local] Instance updated_le_total : Total (updated_le timestamptz).
Proof.
  intros d1 d2. unfold updated_le.
  destruct (as_string (updated_at d1) ≫= timestamptz),
           (as_string (updated_at d2) ≫= timestamptz); try tauto. lia.
Qed.

#[local] Instance updated_le_trans : Transitive (updated_le timestamptz).
Proof.
  intros d1 d2 d3. unfold updated_le.
  destruct (as_string (updated_at d1) ≫= timestamptz),
           (as_string (updated_at d2) ≫= timestamptz),
           (as_string (updated_at d3) ≫= timestamptz); try tauto. lia.
Qed.

Lemma last_of_sorted_is_greatest {A} (R : relation A) `{!Reflexive R} l m :
  StronglySorted R l → last l = Some m → ∀ x, x ∈ l → R x m.
Proof.
  induction 1 as [|y l Hsorted IH Hall]; intros Hlast x Hin.
  - by apply elem_of_nil in Hin.
  - destruct l as [|z l].
    + simpl in Hlast. injection Hlast as <-. apply list_elem_of_singleton in Hin as ->.
      reflexivity.
    + rewrite last_cons_cons in Hlast. apply elem_of_cons in Hin as [->|Hin].
      * rewrite Forall_forall in Hall. apply Hall.
        apply last_Some in Hlast as [l' Hl']. rewrite Hl'. set_solver.
      * by apply IH.
Qed.

#[local] Instance updated_le_refl : Reflexive (updated_le timestamptz).
Proof. intros d. by destruct (total (updated_le timestamptz) d d). Qed.

(** No fetched row is placed after the last one by the remote order. *)
Lemma select_rows_last rows congregationId since last_doc s row :
  last (select_rows timestamptz rows congregationId since) = Some last_doc →
  updated_at last_doc = Present s →
  row ∈ select_rows timestamptz rows congregationId since →
  js_gt (as_string (updated_at row) ≫= timestamptz) (timestamptz s) = false.
Proof.
  intros Hlast Hs Hin.
  assert (Hle : updated_le timestamptz row last_doc).
  { eapply last_of_sorted_is_greatest; [apply _| |exact Hlast|exact Hin].
    unfold select_rows. apply StronglySorted_merge_sort; apply _. }
  unfold updated_le in Hle. rewrite Hs in Hle. simpl in Hle.
  destruct (as_string (updated_at row) ≫= timestamptz) as [a|], (timestamptz s) as [b|];
    simpl; try done.
  apply bool_decide_eq_false. lia.
Qed.

(** X4. Pulls are incremental: when a pull moved the cursor to [s], the
    [updated_at] of the last row it fetched, a pull bounded by [s] fetches
    none of the rows the first one fetched. *)
Theorem pull_is_incremental c congregationId since env s :
  select_error (remote env) c = None →
  let fetched := select_rows timestamptz (tables (remote env) c) congregationId (truthy since) in
  let env' := (pullFromSupabase Date_parse timestamptz c congregationId since env).1 in
  truthy (last_updated_at fetched) = Some s →
  cursor env' c = Some s ∧
  ∀ row, row ∈ fetched →
         row ∉ select_rows timestamptz (tables (remote env') c) congregationId (Some s).
Proof.
  intros Hsel fetched env' Hlast.
  destruct (pullFromSupabase_resolved Date_parse timestamptz c congregationId since env Hsel)
    as (env1 & Hrun & _ & _ & Hrem & Hcur & _).
  fold fetched in Hcur. unfold env'. rewrite Hrun; simpl.
  rewrite Hcur, Hlast, Hrem. split; [done|].
  intros row Hin [_ Hselected]%elem_of_select_rows.
  unfold row_selected in Hselected. apply andb_true_iff in Hselected as [_ Hgt].
  unfold last_updated_at in Hlast.
  destruct (last fetched) as [last_doc|] eqn:Hlast_doc; [|done].
  destruct (updated_at last_doc) as [| |s'] eqn:Hs'; [done..|].
  assert (s' = s) as ->.
  { simpl in Hlast. by destruct (decide (s' = "")); simplify_eq. }
  pose proof (select_rows_last _ _ _ _ _ _ Hlast_doc Hs' Hin). congruence.
Qed.

End Pull_more.

(** ** Replication states after a pull or a push *)

Lemma state_of_alter f env c :
  is_Some (replicationStates env !! collection_key c) →
  state_of (set_replicationStates (alter f (collection_key c)) env) c = f (state_of env c).
Proof.
  intros [st Hst]. unfold state_of; simpl. by rewrite lookup_alter_eq, Hst.
Qed.

Lemma state_alter_some f env c :
  is_Some (replicationStates env !! collection_key c) →
  is_Some (replicationStates (set_replicationStates (alter f (collection_key c)) env)
             !! collection_key c).
Proof. intros [st Hst]. simpl. rewrite lookup_alter_eq, Hst. eauto. Qed.

Lemma state_of_set_remote f env c : state_of (set_remote f env) c = state_of env c.
Proof. done. Qed.

Lemma state_of_getReplicationState env c :
  state_of (getReplicationState (collection_key c) env).1 c = state_of env c ∧
  is_Some (replicationStates (getReplicationState (collection_key c) env).1
             !! collection_key c).
Proof. unfold state_of. rewrite getReplicationState_lookup. eauto. Qed.

Lemma collection_key_truthy c : truthy (Some (collection_key c)) = Some (collection_key c).
Proof. by destruct c. Qed.

(** Reading the status of a collection whose state exists. *)
Lemma getReplicationStatus_existing c env :
  is_Some (replicationStates env !! collection_key c) →
  getReplicationStatus (Some (collection_key c)) env = (env, Resolved (inl (state_of env c))).
Proof.
  intros [st Hst]. unfold getReplicationStatus. rewrite collection_key_truthy.
  unfold bind, getReplicationState, state_of. by rewrite Hst.
Qed.

Section States_after.

Variable Date_parse : string → option Z.
Variable timestamptz : string → option Z.

Lemma pull_started_state c congregationId since env :
  state_of (pull_started c congregationId since env) c = set_isActive true (state_of env c) ∧
  is_Some (replicationStates (pull_started c congregationId since env) !! collection_key c).
Proof.
  destruct (state_of_getReplicationState env c) as [Hst Hsome].
  unfold pull_started. split.
  - unfold state_of in *; simpl. rewrite lookup_alter_eq.
    destruct Hsome as [st Hsome]. rewrite Hsome in *. simpl in *. by rewrite Hst.
  - simpl. rewrite lookup_alter_eq. destruct Hsome as [st ->]. eauto.
Qed.

Lemma state_of_pull_resolved c congregationId since env :
  select_error (remote env) c = None →
  let fetched := select_rows timestamptz (tables (remote env) c) congregationId (truthy since) in
  state_of (pullFromSupabase Date_parse timestamptz c congregationId since env).1 c
  = {| isActive := false;
       lastSync := match truthy (last_updated_at fetched) with
                   | Some s => Some s
                   | None => lastSync (state_of env c)
                   end;
       pendingChanges := pendingChanges (state_of env c);
       error := error (state_of env c) |} ∧
  is_Some (replicationStates
             (pullFromSupabase Date_parse timestamptz c congregationId since env).1
             !! collection_key c).
Proof.
  intros Hsel fetched.
  rewrite (pullFromSupabase_resolved_eq Date_parse timestamptz c congregationId since env Hsel).
  fold fetched. cbv zeta.
  destruct (pull_loop_run Date_parse c fetched (pull_started c congregationId since env))
    as (env3 & Hloop & Hs3 & _).
  rewrite Hloop; simpl.
  destruct (pull_started_state c congregationId since env) as [Hst [st Hsome]].
  unfold state_of in *.
  destruct (truthy (last_updated_at fetched)); simpl;
    rewrite ?lookup_alter_eq, Hs3, Hsome in *; simpl in *; rewrite Hst; eauto.
Qed.

Lemma state_of_fail_replication {A} c e env :
  is_Some (replicationStates env !! collection_key c) →
  state_of (fail_replication (A := A) (collection_key c) e env).1 c
  = set_error (Some (error_message e)) (set_isActive false (state_of env c)).
Proof.
  intros [st Hst]. rewrite fail_replication_eq. unfold state_of; simpl.
  rewrite !lookup_alter_eq, getReplicationState_lookup, Hst. done.
Qed.

Lemma state_of_pull_rejected c congregationId since env e :
  select_error (remote env) c = Some e →
  state_of (pullFromSupabase Date_parse timestamptz c congregationId since env).1 c
  = {| isActive := false;
       lastSync := lastSync (state_of env c);
       pendingChanges := pendingChanges (state_of env c);
       error := Some (error_message e) |} ∧
  is_Some (replicationStates
             (pullFromSupabase Date_parse timestamptz c congregationId since env).1
             !! collection_key c).
Proof.
  intros Hsel.
  rewrite (pullFromSupabase_rejected_eq Date_parse timestamptz c congregationId since env e Hsel).
  destruct (pull_started_state c congregationId since env) as [Hst Hsome].
  split.
  - rewrite state_of_fail_replication by done. by rewrite Hst.
  - rewrite fail_replication_eq; simpl.
    rewrite !lookup_alter_eq, getReplicationState_lookup. destruct Hsome as [st ->]. eauto.
Qed.

(** X5. A pull whose remote query fails rethrows the error, leaves the
    local store, the remote tables and every cursor as they were, and the
    status of the collection then reads inactive with the error message. *)
Theorem pull_failure_is_recorded c congregationId since env e :
  select_error (remote env) c = Some e →
  let run := pullFromSupabase Date_parse timestamptz c congregationId since env in
  run.2 = Rejected e ∧
  db run.1 = db env ∧
  tables (remote run.1) = tables (remote env) ∧
  (∀ c', cursor run.1 c' = cursor env c') ∧
  (getReplicationStatus (Some (collection_key c)) run.1).2
  = Resolved (inl {| isActive := false;
                     lastSync := cursor env c;
                     pendingChanges := pendingChanges (state_of env c);
                     error := Some (error_message e) |}).
Proof.
  intros Hsel run.
  destruct (state_of_pull_rejected c congregationId since env e Hsel) as [Hst Hsome].
  fold run in Hst, Hsome.
  rewrite (getReplicationStatus_existing c run.1 Hsome); simpl. rewrite Hst.
  destruct (pullFromSupabase_rejected Date_parse timestamptz c congregationId since env e Hsel)
    as (env1 & Hrun & Hdb & Hrem & Hcur).
  unfold run. rewrite Hrun; simpl. rewrite Hrem. by repeat split.
Qed.

Lemma push_started_state c env :
  state_of (push_started c env) c = set_isActive true (state_of env c) ∧
  is_Some (replicationStates (push_started c env) !! collection_key c).
Proof.
  destruct (state_of_getReplicationState env c) as [Hst [st Hsome]].
  unfold push_started, state_of in *; simpl. rewrite lookup_alter_eq, Hsome in *.
  simpl in *. rewrite Hst. eauto.
Qed.

Lemma state_of_push c congregationId env :
  let batch := push_batch Date_parse (cursor env c) (local_docs env c congregationId) in
  state_of (pushToSupabase Date_parse c congregationId env).1 c
  = match batch with
    | [] => set_isActive false (state_of env c)
    | _ =>
        match upsert_error (remote env) c with
        | Some e =>
            {| isActive := false;
               lastSync := lastSync (state_of env c);
               pendingChanges := pendingChanges (state_of env c);
               error := Some (error_message e) |}
        | None =>
            {| isActive := false;
               lastSync := match truthy (last_updated_at batch) with
                           | Some s => Some s
                           | None => lastSync (state_of env c)
                           end;
               pendingChanges := 0;
               error := error (state_of env c) |}
        end
    end.
Proof.
  intros batch. rewrite pushToSupabase_eq. fold batch. cbv zeta.
  destruct (push_started_state c env) as [Hst Hsome].
  destruct batch as [|record rest] eqn:Hbatch.
  - simpl. rewrite state_of_alter by done. rewrite Hst. done.
  - rewrite <- Hbatch. destruct (upsert_error (remote env) c) as [e|].
    + rewrite state_of_fail_replication by done.
      rewrite state_of_set_remote, Hst. done.
    + destruct (truthy (last_updated_at batch)); cbn [fst];
        rewrite !state_of_alter by (repeat first [exact Hsome | apply state_alter_some]);
        rewrite !state_of_set_remote, Hst; done.
Qed.

(** X6. However a pull or a push ends (resolved, rejected, nothing to do),
    the collection is marked inactive afterwards. *)
Theorem replication_ends_inactive c congregationId since env :
  isActive (state_of (pullFromSupabase Date_parse timestamptz c congregationId since env).1 c)
  = false ∧
  isActive (state_of (pushToSupabase Date_parse c congregationId env).1 c) = false.
Proof.
  split.
  - destruct (select_error (remote env) c) as [e|] eqn:Hsel.
    + by destruct (state_of_pull_rejected c congregationId since env e Hsel) as [-> _].
    + by destruct (state_of_pull_resolved c congregationId since env Hsel) as [-> _].
  - rewrite state_of_push.
    destruct (push_batch _ _ _); [done|].
    by destruct (upsert_error (remote env) c).
Qed.

(** X7. Success does not clear a recorded error: after a pull whose query
    answers and after a push whose upsert is accepted, the [error] of the
    collection's state is what it was before. *)
Theorem success_keeps_recorded_error c congregationId since env :
  select_error (remote env) c = None →
  upsert_error (remote env) c = None →
  error (state_of (pullFromSupabase Date_parse timestamptz c congregationId since env).1 c)
  = error (state_of env c) ∧
  error (state_of (pushToSupabase Date_parse c congregationId env).1 c)
  = error (state_of env c).
Proof.
  intros Hsel Hups. split.
  - by destruct (state_of_pull_resolved c congregationId since env Hsel) as [-> _].
  - rewrite state_of_push, Hups. by destruct (push_batch _ _ _).
Qed.

(** The remote store a push leaves. *)
Lemma remote_after_push c congregationId env :
  let batch := push_batch Date_parse (cursor env c) (local_docs env c congregationId) in
  remote (pushToSupabase Date_parse c congregationId env).1
  = match batch with
    | [] => remote env
    | _ =>
        match upsert_error (remote env) c with
        | Some _ => log_request (ReqUpsert c batch) (remote env)
        | None => upsert_applied c batch (log_request (ReqUpsert c batch) (remote env))
        end
    end.
Proof.
  intros batch. rewrite pushToSupabase_eq. fold batch. cbv zeta.
  destruct (getReplicationState_stores (collection_key c) env) as [_ Hrem0].
  destruct batch as [|record rest] eqn:Hbatch; [done|].
  rewrite <- Hbatch. destruct (upsert_error (remote env) c) as [e|].
  - rewrite fail_replication_eq; simpl.
    destruct (getReplicationState_stores (collection_key c)
                (set_remote (log_request (ReqUpsert c batch)) (push_started c env)))
      as [_ ->]. simpl. by rewrite Hrem0.
  - destruct (truthy (last_updated_at batch)); simpl; by rewrite Hrem0.
Qed.

(** X8. A push whose upsert is refused rethrows the error after the one
    request; the remote tables, the local store and every cursor stay as
    they were, and the error message is recorded in the collection's
    state. *)
Theorem push_failure_is_recorded c congregationId env e :
  upsert_error (remote env) c = Some e →
  push_batch Date_parse (cursor env c) (local_docs env c congregationId) ≠ [] →
  let run := pushToSupabase Date_parse c congregationId env in
  run.2 = Rejected e ∧
  tables (remote run.1) = tables (remote env) ∧
  db run.1 = db env ∧
  (∀ c', cursor run.1 c' = cursor env c') ∧
  error (state_of run.1 c) = Some (error_message e) ∧
  pendingChanges (state_of run.1 c) = pendingChanges (state_of env c).
Proof.
  intros Herr Hbatch run.
  pose proof (remote_after_push c congregationId env) as Hrem.
  pose proof (state_of_push c congregationId env) as Hstate.
  cbv zeta in Hrem, Hstate. rewrite Herr in Hrem, Hstate.
  destruct (pushToSupabase_run Date_parse c congregationId env)
    as (env' & r & Hrun & Hdb & _ & Hother & _ & Hfail & _).
  destruct (Hfail Hbatch e Herr) as [-> Hcur].
  unfold run. rewrite Hrun in *; simpl in *.
  destruct (push_batch _ _ _) as [|record rest]; [done|].
  rewrite Hrem, Hstate; simpl. repeat split; try done.
  intros c'. destruct (decide (c' = c)) as [->|Hne]; [done|by apply Hother].
Qed.

End States_after.

(** ** Push: what is sent and what the remote table becomes *)

Lemma elem_of_local_docs env c congregationId doc :
  doc ∈ local_docs env c congregationId ↔
  congregation_id doc = congregationId ∧ ∃ key, db env c !! key = Some doc.
Proof.
  unfold local_docs. rewrite merge_sort_Permutation, list_elem_of_filter.
  rewrite list_elem_of_fmap. split.
  - intros [Htenant ([key d] & -> & Hin)]. split; [done|].
    exists key. by apply elem_of_map_to_list in Hin.
  - intros [Htenant [key Hkey]]. split; [done|].
    exists (key, doc). split; [done|]. by apply elem_of_map_to_list.
Qed.

Lemma to_record_fields doc key :
  fields (to_record doc) !! key
  = if decide (key ∈ internal_fields) then None else fields doc !! key.
Proof.
  unfold to_record, internal_fields; simpl.
  destruct (decide (key = "_meta")) as [->|H1]; [by rewrite lookup_delete_eq|].
  rewrite lookup_delete_ne by done.
  destruct (decide (key = "_attachments")) as [->|H2]; [by rewrite lookup_delete_eq|].
  rewrite lookup_delete_ne by done.
  destruct (decide (key = "_rev")) as [->|H3]; [by rewrite lookup_delete_eq|].
  rewrite lookup_delete_ne by done.
  rewrite decide_False; [done|]. rewrite !elem_of_cons, elem_of_nil.
  intros [?|[?|[?|[]]]]; done.
Qed.

Lemma upsert_row_ids now rows record :
  id <$> upsert_row now rows record
  = if decide (id record ∈ id <$> rows) then id <$> rows else (id <$> rows) ++ [id record].
Proof.
  unfold upsert_row. destruct (decide (id record ∈ id <$> rows)).
  - rewrite <- list_fmap_compose. apply list_fmap_ext. intros i row _. simpl.
    by destruct (decide (id row = id record)).
  - by rewrite fmap_app.
Qed.

Lemma upsert_row_NoDup now rows record :
  NoDup (id <$> rows) → NoDup (id <$> upsert_row now rows record).
Proof.
  intros Hnodup. rewrite upsert_row_ids.
  destruct (decide (id record ∈ id <$> rows)); [done|].
  apply NoDup_app. split; [done|]. split; [|apply NoDup_singleton].
  intros x Hx ->%list_elem_of_singleton. done.
Qed.

Lemma upsert_row_keeps_ids now rows record x :
  x ∈ id <$> rows → x ∈ id <$> upsert_row now rows record.
Proof.
  intros Hx. rewrite upsert_row_ids.
  destruct (decide (id record ∈ id <$> rows)); [done|]. apply elem_of_app. by left.
Qed.

Lemma upsert_row_has_id now rows record : id record ∈ id <$> upsert_row now rows record.
Proof.
  rewrite upsert_row_ids.
  destruct (decide (id record ∈ id <$> rows)); [done|]. set_solver.
Qed.

Lemma upsert_row_other now rows record row :
  row ∈ rows → id row ≠ id record → row ∈ upsert_row now rows record.
Proof.
  intros Hin Hne. unfold upsert_row.
  destruct (decide (id record ∈ id <$> rows)); [|set_solver].
  apply list_elem_of_fmap. exists row. split; [|done]. by rewrite decide_False.
Qed.

Lemma upsert_rows_NoDup now batch rows :
  NoDup (id <$> rows) → NoDup (id <$> foldl (upsert_row now) rows batch).
Proof.
  revert rows. induction batch as [|record batch IH]; intros rows Hnodup; [done|].
  simpl. by apply IH, upsert_row_NoDup.
Qed.

Lemma upsert_rows_keep_ids now batch rows x :
  x ∈ id <$> rows → x ∈ id <$> foldl (upsert_row now) rows batch.
Proof.
  revert rows. induction batch as [|record batch IH]; intros rows Hx; [done|].
  simpl. by apply IH, upsert_row_keeps_ids.
Qed.

Lemma upsert_rows_have_ids now batch rows record :
  record ∈ batch → id record ∈ id <$> foldl (upsert_row now) rows batch.
Proof.
  revert rows. induction batch as [|r batch IH]; intros rows Hin.
  - by apply elem_of_nil in Hin.
  - simpl. apply elem_of_cons in Hin as [->|Hin]; [|by apply IH].
    apply upsert_rows_keep_ids, upsert_row_has_id.
Qed.

Lemma upsert_rows_other now batch rows row :
  row ∈ rows → id row ∉ id <$> batch → row ∈ foldl (upsert_row now) rows batch.
Proof.
  revert rows. induction batch as [|record batch IH]; intros rows Hin Hnotin; [done|].
  rewrite fmap_cons, not_elem_of_cons in Hnotin. destruct Hnotin as [Hne Hnotin].
  simpl. apply IH; [|done]. by apply upsert_row_other.
Qed.

Lemma tables_upsert_applied c batch s :
  tables (upsert_applied c batch s) c = foldl (upsert_row (server_now s)) (tables s c) batch ∧
  ∀ c', c' ≠ c → tables (upsert_applied c batch s) c' = tables s c'.
Proof.
  unfold upsert_applied, set_table; simpl. split; [apply fn_lookup_insert|].
  intros c' Hne. by apply fn_lookup_insert_ne.
Qed.

Section Push_more.

Variable Date_parse : string → option Z.
Variable timestamptz : string → option Z.

(** The tables a push leaves. *)
Lemma tables_after_push c congregationId env :
  let batch := push_batch Date_parse (cursor env c) (local_docs env c congregationId) in
  let after := tables (remote (pushToSupabase Date_parse c congregationId env).1) in
  (∀ c', c' ≠ c → after c' = tables (remote env) c') ∧
  after c = match upsert_error (remote env) c with
            | Some _ => tables (remote env) c
            | None => foldl (upsert_row (server_now (remote env))) (tables (remote env) c) batch
            end.
Proof.
  intros batch after. unfold after. rewrite remote_after_push. fold batch.
  destruct batch as [|record rest] eqn:Hbatch.
  - split; [done|]. by destruct (upsert_error (remote env) c).
  - rewrite <- Hbatch. destruct (upsert_error (remote env) c); [done|].
    destruct (tables_upsert_applied c batch (log_request (ReqUpsert c batch) (remote env)))
      as [Hc Hother].
    split; [|by rewrite Hc]. intros c' Hne. by rewrite Hother.
Qed.

(** X9. What a push transmits: one upsert, of records that each copy a
    local document of the tenant ([id], [updated_at] and every field)
    except for the internal fields [_rev], [_attachments] and [_meta],
    which no record carries. *)
Theorem push_sends_stripped_documents c congregationId env :
  ∃ batch,
    requests (remote (pushToSupabase Date_parse c congregationId env).1)
    = requests (remote env) ++ upsert_requests c batch ∧
    ∀ record, record ∈ batch →
      (∀ key, key ∈ internal_fields → fields record !! key = None) ∧
      ∃ key doc,
        db env c !! key = Some doc ∧
        congregation_id doc = congregationId ∧
        id record = id doc ∧ updated_at record = updated_at doc ∧
        congregation_id record = congregation_id doc ∧
        ∀ field, field ∉ internal_fields → fields record !! field = fields doc !! field.
Proof.
  destruct (pushToSupabase_run Date_parse c congregationId env)
    as (env' & r & Hrun & _ & Hreq & _).
  rewrite Hrun; simpl. eexists; split; [exact Hreq|].
  intros record (doc & -> & Hin)%list_elem_of_fmap.
  apply elem_of_docsToSync in Hin as [Hin _].
  apply elem_of_local_docs in Hin as [Htenant [key Hkey]].
  split.
  - intros field Hfield. rewrite to_record_fields. by rewrite decide_True.
  - exists key, doc. repeat split; try done.
    intros field Hfield. rewrite to_record_fields. by rewrite decide_False.
Qed.

(** X10. An accepted push keeps [id] a primary key of the remote table and
    deletes nothing: ids stay pairwise distinct, every row id present
    before is present after, every transmitted id is present after, rows
    whose id was not transmitted are unchanged, and the other tables are
    not touched. *)
Theorem push_upserts_by_primary_key c congregationId env :
  upsert_error (remote env) c = None →
  NoDup (id <$> tables (remote env) c) →
  let batch := push_batch Date_parse (cursor env c) (local_docs env c congregationId) in
  let after := tables (remote (pushToSupabase Date_parse c congregationId env).1) in
  NoDup (id <$> after c) ∧
  (∀ row, row ∈ tables (remote env) c → id row ∈ id <$> after c) ∧
  (∀ record, record ∈ batch → id record ∈ id <$> after c) ∧
  (∀ row, row ∈ tables (remote env) c → id row ∉ id <$> batch → row ∈ after c) ∧
  (∀ c', c' ≠ c → after c' = tables (remote env) c').
Proof.
  intros Hups Hnodup batch after.
  destruct (tables_after_push c congregationId env) as [Hother Hc].
  fold batch after in Hother, Hc. rewrite Hups in Hc. rewrite Hc.
  split; [by apply upsert_rows_NoDup|].
  split; [intros row Hrow; by apply upsert_rows_keep_ids, list_elem_of_fmap_2|].
  split; [intros record Hrec; by apply upsert_rows_have_ids|].
  split; [intros row Hrow Hnotin; by apply upsert_rows_other|done].
Qed.

End Push_more.

(** ** What a whole sync preserves *)

Section Sync_more.

Variable Date_parse : string → option Z.
Variable timestamptz : string → option Z.

Lemma syncCollection_env c congregationId env :
  let started := (getReplicationState (collection_key c) env).1 in
  let pull := pullFromSupabase Date_parse timestamptz c congregationId
                (truthy (cursor env c)) started in
  (syncCollection Date_parse timestamptz c congregationId env).1
  = match pull.2 with
    | Rejected _ => pull.1
    | Resolved _ => (pushToSupabase Date_parse c congregationId pull.1).1
    end.
Proof.
  intros started pull. rewrite syncCollection_unfold. fold started pull.
  by destruct (pull.2).
Qed.

Lemma syncAll_env congregationId env :
  let sync := syncCollection Date_parse timestamptz in
  (syncAll Date_parse timestamptz congregationId env).1
  = (sync assignments congregationId
       (sync houses congregationId (sync territories congregationId env).1).1).1.
Proof.
  unfold syncAll; simpl.
  erewrite bind_run by apply try_catch_syncCollection.
  erewrite bind_run by apply try_catch_syncCollection.
  erewrite bind_run by apply try_catch_syncCollection.
  reflexivity.
Qed.

(** A relation between environments that every step of a sync respects
    holds across [syncCollection] and across [syncAll]. *)
Lemma syncCollection_preserves (R : relation Env) congregationId :
  Reflexive R → Transitive R →
  (∀ name env, R env (getReplicationState name env).1) →
  (∀ c since env,
     R env (pullFromSupabase Date_parse timestamptz c congregationId since env).1) →
  (∀ c env, R env (pushToSupabase Date_parse c congregationId env).1) →
  ∀ c env, R env (syncCollection Date_parse timestamptz c congregationId env).1.
Proof.
  intros Hrefl Htrans Hget Hpull Hpush c env. rewrite syncCollection_env.
  set (started := (getReplicationState (collection_key c) env).1).
  set (pull := pullFromSupabase _ _ c congregationId _ started).
  assert (R env pull.1) as Hto_pull.
  { transitivity started; [apply Hget|apply Hpull]. }
  destruct (pull.2); [|done]. transitivity pull.1; [done|apply Hpush].
Qed.

Lemma syncAll_preserves (R : relation Env) congregationId :
  Reflexive R → Transitive R →
  (∀ name env, R env (getReplicationState name env).1) →
  (∀ c since env,
     R env (pullFromSupabase Date_parse timestamptz c congregationId since env).1) →
  (∀ c env, R env (pushToSupabase Date_parse c congregationId env).1) →
  ∀ env, R env (syncAll Date_parse timestamptz congregationId env).1.
Proof.
  intros Hrefl Htrans Hget Hpull Hpush env. rewrite syncAll_env.
  pose proof (syncCollection_preserves R congregationId Hrefl Htrans Hget Hpull Hpush) as Hsync.
  transitivity (syncCollection Date_parse timestamptz territories congregationId env).1;
    [apply Hsync|].
  etransitivity; apply Hsync.
Qed.

#[local] Instance rows_kept_refl : Reflexive rows_kept.
Proof. intros env c row Hrow. by apply list_elem_of_fmap_2. Qed.

#[local] Instance rows_kept_trans : Transitive rows_kept.
Proof.
  intros env1 env2 env3 H12 H23 c row Hrow.
  apply H12 in Hrow. apply list_elem_of_fmap in Hrow as (row2 & -> & Hrow2).
  by apply H23.
Qed.

#[local] Instance scoped_requests_refl congregationId :
  Reflexive (scoped_requests congregationId).
Proof. intros env. exists []. by rewrite app_nil_r. Qed.

#[local] Instance scoped_requests_trans congregationId :
  Transitive (scoped_requests congregationId).
Proof.
  intros env1 env2 env3 (made1 & Hreq1 & Hall1) (made2 & Hreq2 & Hall2).
  exists (made1 ++ made2). split.
  - by rewrite Hreq2, Hreq1, app_assoc.
  - by apply Forall_app.
Qed.

Lemma same_remote_rows_kept env env' : tables (remote env') = tables (remote env) → rows_kept env env'.
Proof. intros Htab c row Hrow. rewrite Htab. by apply list_elem_of_fmap_2. Qed.

Lemma syncAll_rows_kept congregationId env :
  rows_kept env (syncAll Date_parse timestamptz congregationId env).1.
Proof.
  apply syncAll_preserves; try apply _.
  - intros name env0. apply same_remote_rows_kept.
    by destruct (getReplicationState_stores name env0) as [_ ->].
  - intros c since env0. apply same_remote_rows_kept.
    by destruct (pullFromSupabase_stores Date_parse timestamptz c congregationId since env0)
      as [-> _].
  - intros c env0 c' row Hrow.
    destruct (tables_after_push Date_parse c congregationId env0) as [Hother Hc].
    destruct (decide (c' = c)) as [->|Hne].
    + rewrite Hc. destruct (upsert_error (remote env0) c).
      * by apply list_elem_of_fmap_2.
      * by apply upsert_rows_keep_ids, list_elem_of_fmap_2.
    + rewrite Hother by done. by apply list_elem_of_fmap_2.
Qed.

(** X11. A sync never deletes on the remote side: after [syncAll], every
    table still holds a row for every id it held before, whatever failed on
    the way. A document removed locally therefore stays on the remote. *)
Theorem syncAll_keeps_remote_rows congregationId env c row :
  row ∈ tables (remote env) c →
  id row ∈ id <$> tables (remote (syncAll Date_parse timestamptz congregationId env).1) c.
Proof. apply syncAll_rows_kept. Qed.

(** X12. Every request [syncAll] makes is scoped to the tenant it was
    given: each select filters on it and each upsert carries its documents
    only. *)
Theorem syncAll_requests_are_scoped congregationId env :
  ∃ made,
    requests (remote (syncAll Date_parse timestamptz congregationId env).1)
    = requests (remote env) ++ made ∧
    Forall (request_scoped congregationId) made.
Proof.
  apply (syncAll_preserves (scoped_requests congregationId)); try apply _.
  - intros name env0. exists []. rewrite app_nil_r.
    by destruct (getReplicationState_stores name env0) as [_ ->].
  - intros c since env0. eexists. split; [apply pullFromSupabase_requests|].
    by apply Forall_singleton.
  - intros c env0.
    destruct (pushToSupabase_run Date_parse c congregationId env0)
      as (env' & r & Hrun & _ & Hreq & _).
    rewrite Hrun; simpl. eexists. split; [exact Hreq|].
    unfold upsert_requests.
    destruct (push_batch _ _ _) as [|record rest] eqn:Hbatch; [done|].
    apply Forall_singleton. simpl. rewrite <- Hbatch. apply Forall_forall.
    intros record' Hin. by apply push_batch_tenant in Hin.
Qed.

End Sync_more.

(** ** The hooks over the local store *)

Lemma updateDocument_run c key updates existing env :
  db env c !! key = Some existing →
  updateDocument c true key updates env
  = (set_collection c (alter (apply_updates updates) key) env, Resolved ()).
Proof. intros Hl. unfold updateDocument, bind, findOne, gets. by rewrite Hl. Qed.

Lemma deleteDocument_run c key env :
  ∃ env', deleteDocument c true key env = (env', Resolved ()) ∧
          changes_only c (delete key) env env'.
Proof.
  unfold deleteDocument, bind, findOne, gets.
  destruct (db env c !! key) as [existing|] eqn:Hl.
  - eexists; split; [reflexivity|].
    unfold changes_only. rewrite db_set_collection.
    repeat split. intros c' Hne. by rewrite db_set_collection_ne.
  - exists env; split; [reflexivity|]. repeat split. by rewrite delete_id.
Qed.

(** X13. Adding a document whose id is free and deleting it again restores
    the collection; the add resolves to the document it stored. *)
Theorem add_then_delete_restores c doc env :
  db env c !! id doc = None →
  let added := addDocument c true doc env in
  let deleted := deleteDocument c true (id doc) added.1 in
  added.2 = Resolved doc ∧
  db added.1 c !! id doc = Some doc ∧
  deleted.2 = Resolved () ∧
  db deleted.1 c = db env c.
Proof.
  intros Hfree added deleted.
  assert (Hadd : added = (set_collection c (insert (id doc) doc) env, Resolved doc)).
  { unfold added, addDocument, bind, insert_doc. by rewrite Hfree. }
  destruct (deleteDocument_run c (id doc) added.1) as (env' & Hrun & _ & _ & Hdb & _).
  fold deleted in Hrun. rewrite Hrun, Hadd; cbn [fst snd].
  rewrite Hadd in Hdb; cbn [fst snd] in Hdb.
  rewrite Hdb, db_set_collection. split; [done|]. split; [apply lookup_insert_eq|].
  split; [done|]. by apply delete_insert_id.
Qed.

Lemma bulkAddHouses_loop_run batch results env :
  ∃ env' inserted,
    bulkAddHouses_loop batch results env = (env', Resolved (results ++ inserted)) ∧
    replicationStates env' = replicationStates env ∧
    remote env' = remote env ∧
    (∀ c, c ≠ houses → db env' c = db env c) ∧
    (∀ key existing, db env houses !! key = Some existing →
                     db env' houses !! key = Some existing) ∧
    (∀ house, house ∈ batch → is_Some (db env' houses !! id house)) ∧
    (∀ house, house ∈ inserted →
              house ∈ batch ∧ db env houses !! id house = None ∧
              db env' houses !! id house = Some house) ∧
    (∀ key, is_Some (db env' houses !! key) →
            is_Some (db env houses !! key) ∨ key ∈ id <$> inserted) ∧
    size (db env' houses) = size (db env houses) + length inserted ∧
    inserted `sublist_of` batch ∧
    NoDup (id <$> inserted).
Proof.
  revert results env. induction batch as [|house batch IH]; intros results env.
  - exists env, []. rewrite app_nil_r.
    do 5 (split; [done|]).
    split; [intros h Hin; by apply elem_of_nil in Hin|].
    split; [intros h Hin; by apply elem_of_nil in Hin|].
    split; [intros key Hkey; by left|].
    split; [simpl; lia|]. split; [done|apply NoDup_nil_2].
  - simpl. unfold bind at 1, try_catch, bind at 1, insert_doc.
    destruct (db env houses !! id house) as [existing|] eqn:Hl.
    + (* the insert is refused: the stored document stays *)
      destruct (IH results env)
        as (env' & inserted & Hrun & Hs & Hr & Hother & Hkeep & Hall & Hins & Hdom & Hsize
            & Hsub & Hnodup).
      exists env', inserted. simpl. rewrite Hrun.
      do 5 (split; [done|]).
      split; [|split; [|split; [done|split; [done|split; [|done]]]]].
      * intros h [->|Hin]%elem_of_cons; [|by apply Hall]. rewrite (Hkeep _ _ Hl). eauto.
      * intros h Hin. destruct (Hins _ Hin) as (Hb & Hnone & Hsome).
        split; [by apply list_elem_of_further|done].
      * by apply sublist_cons.
    + destruct (IH (results ++ [house]) (set_collection houses (insert (id house) house) env))
        as (env' & inserted & Hrun & Hs & Hr & Hother & Hkeep & Hall & Hins & Hdom & Hsize
            & Hsub & Hnodup).
      rewrite db_set_collection in Hkeep, Hins, Hdom, Hsize.
      exists env', (house :: inserted). simpl. rewrite Hrun.
      split; [by rewrite <- app_assoc|]. do 2 (split; [done|]).
      split; [|split; [|split; [|split; [|split; [|split; [|split]]]]]].
      * intros c Hne. rewrite Hother by done. by rewrite db_set_collection_ne.
      * intros key existing Hkey. apply Hkeep. rewrite lookup_insert_ne; [done|].
        intros <-. congruence.
      * intros h [->|Hin]%elem_of_cons; [|by apply Hall].
        rewrite (Hkeep (id house) house); [eauto|apply lookup_insert_eq].
      * intros h [->|Hin]%elem_of_cons.
        -- split; [apply list_elem_of_here|]. split; [done|].
           apply Hkeep, lookup_insert_eq.
        -- destruct (Hins _ Hin) as (Hb & Hnone & Hsome).
           split; [by apply list_elem_of_further|]. split; [|done].
           destruct (decide (id h = id house)) as [Heq|Hne]; [by rewrite Heq|].
           by rewrite lookup_insert_ne in Hnone.
      * intros key Hkey. apply Hdom in Hkey as [Hkey|Hkey].
        -- destruct (decide (key = id house)) as [->|Hne].
           ++ right. rewrite ?fmap_cons. apply list_elem_of_here.
           ++ left. by rewrite lookup_insert_ne in Hkey.
        -- right. rewrite ?fmap_cons. by apply list_elem_of_further.
      * rewrite Hsize, map_size_insert_None by done. simpl. lia.
      * by apply sublist_skip.
      * change (NoDup (id house :: (id <$> inserted))). apply NoDup_cons. split; [|done].
        intros (h & Heq & Hin)%list_elem_of_fmap.
        destruct (Hins _ Hin) as (_ & Hnone & _).
        rewrite <- Heq, lookup_insert_eq in Hnone. done.
Qed.

(** X14. [bulkAddHouses] never throws on a refused insert: it resolves to
    the houses it inserted, in the order of the batch (the result is the
    batch with the refused houses left out), one per id of the batch that
    was free; each of them is stored as given; documents stored before are
    untouched, every id of the batch is present afterwards, the collection
    grows by the number of results, and nothing but [houses] changes. *)
Theorem bulkAddHouses_skips_refused_inserts batch env :
  ∃ env' inserted,
    bulkAddHouses true batch env = (env', Resolved inserted) ∧
    inserted `sublist_of` batch ∧
    NoDup (id <$> inserted) ∧
    (∀ house, house ∈ batch → db env houses !! id house = None →
              id house ∈ id <$> inserted) ∧
    (∀ key existing, db env houses !! key = Some existing →
                     db env' houses !! key = Some existing) ∧
    (∀ house, house ∈ batch → is_Some (db env' houses !! id house)) ∧
    (∀ house, house ∈ inserted →
              house ∈ batch ∧ db env houses !! id house = None ∧
              db env' houses !! id house = Some house) ∧
    size (db env' houses) = size (db env houses) + length inserted ∧
    (∀ c, c ≠ houses → db env' c = db env c) ∧
    replicationStates env' = replicationStates env ∧ remote env' = remote env.
Proof.
  destruct (bulkAddHouses_loop_run batch [] env)
    as (env' & inserted & Hrun & Hs & Hr & Hother & Hkeep & Hall & Hins & Hdom & Hsize
        & Hsub & Hnodup).
  exists env', inserted. split; [exact Hrun|].
  split; [done|]. split; [done|]. split.
  - intros house Hin Hfree. destruct (Hdom (id house) (Hall _ Hin)) as [[? Hsome]|?]; [|done].
    congruence.
  - by repeat (split; [assumption|]).
Qed.

(** ** Local edits and the next sync *)

Section Edits_and_sync.

Variable Date_parse : string → option Z.
Variable timestamptz : string → option Z.

Lemma docsToSync_intro since docs doc :
  doc ∈ docs →
  (∀ s, truthy since = Some s → modified_since Date_parse s doc = true) →
  doc ∈ docsToSync Date_parse since docs.
Proof.
  intros Hin Hmod. unfold docsToSync. destruct (truthy since) as [s|]; [|done].
  apply list_elem_of_filter. split; [by apply Hmod|done].
Qed.

(** X15. A document deleted locally comes back with the next sync when the
    remote still holds its row: with no cursor yet for the collection, the
    pull fetches the row of the tenant and inserts it again. *)
Theorem deleted_document_returns_on_sync c congregationId env row :
  select_error (remote env) c = None →
  NoDup (id <$> tables (remote env) c) →
  row ∈ tables (remote env) c →
  congregation_id row = congregationId →
  cursor env c = None →
  let deleted := (deleteDocument c true (id row) env).1 in
  db deleted c !! id row = None ∧
  db (syncCollection Date_parse timestamptz c congregationId deleted).1 c !! id row = Some row.
Proof.
  intros Hsel Hnodup Hrow Htenant Hcursor deleted.
  destruct (deleteDocument_run c (id row) env) as (env1 & Hrun & Hs1 & Hr1 & Hdb1 & _).
  assert (deleted = env1) as -> by (unfold deleted; by rewrite Hrun).
  assert (Hgone : db env1 c !! id row = None) by (rewrite Hdb1; apply lookup_delete_eq).
  split; [done|].
  rewrite syncCollection_env.
  assert (Hcur1 : cursor env1 c = None) by (unfold cursor; by rewrite Hs1).
  rewrite Hcur1.
  set (started := (getReplicationState (collection_key c) env1).1).
  destruct (getReplicationState_stores (collection_key c) env1) as [Hdb0 Hrem0].
  fold started in Hdb0, Hrem0.
  assert (Hsel0 : select_error (remote started) c = None) by (by rewrite Hrem0, Hr1).
  destruct (pullFromSupabase_resolved Date_parse timestamptz c congregationId (truthy None)
              started Hsel0) as (env2 & Hpull & Hdb2 & _).
  rewrite Hpull; simpl.
  destruct (pushToSupabase_run Date_parse c congregationId env2) as (env3 & r & Hpush & Hdb3 & _).
  rewrite Hpush; simpl. rewrite Hdb3, Hdb2, Hrem0, Hr1, Hdb0.
  rewrite (merge_docs_lookup _ _ _ row).
  - by rewrite Hgone.
  - by apply NoDup_select_rows.
  - apply elem_of_select_rows. split; [done|].
    unfold row_selected; simpl. by rewrite bool_decide_eq_true_2.
Qed.

(** X16. An edit made through [updateHouse] reaches the next push: the
    house gets the current time as [updated_at], and when that time is
    after the cursor of [houses] (or no cursor exists) the push for the
    house's tenant sends one upsert containing the edited house. *)
Theorem edited_house_is_pushed now congregationId key updates house env :
  db env houses !! key = Some house →
  default (congregation_id house) (set_congregation_id updates) = congregationId →
  now ≠ "" →
  (∀ s, truthy (cursor env houses) = Some s →
        js_gt (Date_parse now) (Date_parse s) = true) →
  let edited := (updateHouse now true key updates env).1 in
  db edited houses !! key = Some (apply_updates (stamped now updates) house) ∧
  ∃ batch,
    requests (remote (pushToSupabase Date_parse houses congregationId edited).1)
    = requests (remote env) ++ [ReqUpsert houses batch] ∧
    to_record (apply_updates (stamped now updates) house) ∈ batch.
Proof.
  intros Hhouse Htenant Hnow Hlater edited.
  assert (Hedit : edited = set_collection houses
                             (alter (apply_updates (stamped now updates)) key) env).
  { unfold edited, updateHouse. by rewrite (updateDocument_run _ _ _ house). }
  assert (Hdb : db edited houses !! key = Some (apply_updates (stamped now updates) house)).
  { rewrite Hedit, db_set_collection, lookup_alter_eq, Hhouse. done. }
  split; [done|].
  destruct (pushToSupabase_run Date_parse houses congregationId edited)
    as (env' & r & Hrun & _ & Hreq & _).
  rewrite Hrun; simpl.
  assert (Hin : to_record (apply_updates (stamped now updates) house)
                ∈ push_batch Date_parse (cursor edited houses)
                    (local_docs edited houses congregationId)).
  { unfold push_batch. apply list_elem_of_fmap_2. apply docsToSync_intro.
    - apply elem_of_local_docs. split; [done|]. eauto.
    - intros s Hs. unfold modified_since; simpl. rewrite decide_False by done.
      apply Hlater. by rewrite Hedit in Hs. }
  exists (push_batch Date_parse (cursor edited houses)
            (local_docs edited houses congregationId)).
  split; [|done]. rewrite Hreq. rewrite Hedit at 1. simpl. f_equal.
  unfold upsert_requests. destruct (push_batch _ _ _); [|done].
  by apply elem_of_nil in Hin.
Qed.

(** X17. An edit made through [updateTerritory] or [updateAssignment]
    without an [updated_at] among its fields keeps the old [updated_at]: a
    document that was not past the cursor is still not selected by the next
    push, so the edit stays local. *)
Theorem unstamped_edit_is_not_pushed c congregationId key updates existing env s :
  db env c !! key = Some existing →
  set_updated_at updates = None →
  truthy (cursor env c) = Some s →
  modified_since Date_parse s existing = false →
  let edited := (updateDocument c true key updates env).1 in
  db edited c !! key = Some (apply_updates updates existing) ∧
  apply_updates updates existing
  ∉ docsToSync Date_parse (cursor edited c) (local_docs edited c congregationId).
Proof.
  intros Hexisting Hnone Hcursor Hold edited.
  assert (Hedit : edited = set_collection c (alter (apply_updates updates) key) env).
  { unfold edited. by rewrite (updateDocument_run _ _ _ existing). }
  split.
  - by rewrite Hedit, db_set_collection, lookup_alter_eq, Hexisting.
  - intros [_ Hmod]%elem_of_docsToSync.
    assert (Hcur : truthy (cursor edited c) = Some s) by (by rewrite Hedit).
    specialize (Hmod s Hcur).
    unfold modified_since, apply_updates in Hmod; simpl in Hmod. rewrite Hnone in Hmod.
    unfold modified_since in Hold. congruence.
Qed.

End Edits_and_sync.

(** ** The realtime listener *)

(** The handler rejects, changing nothing, exactly on the payloads it cannot
    read; on the others it resolves and changes the subscribed collection
    only. *)
Lemma handle_change_run c payload env :
  (unreadable payload →
   ∃ value, handle_change c payload env = (env, Rejected (TypeError value))) ∧
  (¬ unreadable payload →
   ∃ env' g, handle_change c payload env = (env', Resolved ()) ∧ changes_only c g env env').
Proof.
  assert (Hsame : ∀ run : Env * Completion (),
             run = (env, Resolved ()) →
             ∃ env' g, run = (env', Resolved ()) ∧ changes_only c g env env').
  { intros run ->. exists env, (λ coll, coll). split; [done|apply changes_only_refl]. }
  unfold unreadable.
  destruct (decide (eventType payload = "INSERT" ∨ eventType payload = "UPDATE")) as [Hev|Hev].
  - assert (Hnot : eventType payload ≠ "DELETE")
      by (intros Hd; rewrite Hd in Hev; by destruct Hev).
    destruct (new payload) as [| | |[doc|]] eqn:Hnew; simpl.
    + split; [|intros Hreadable; destruct Hreadable; by left].
      intros _. exists "undefined". unfold handle_change. by rewrite decide_True, Hnew.
    + split; [|intros Hreadable; destruct Hreadable; by left].
      intros _. exists "null". unfold handle_change. by rewrite decide_True, Hnew.
    + split; [intros [[_ ?]|[? _]]; done|]. intros _. apply Hsame.
      unfold handle_change. by rewrite decide_True, Hnew.
    + split; [intros [[_ ?]|[? _]]; done|]. intros _.
      destruct (decide (id doc = "")) as [Hempty|Hid].
      * apply Hsame. unfold handle_change. rewrite decide_True, Hnew by done.
        simpl. by rewrite decide_True.
      * destruct (handle_change_upsert c payload doc env Hev Hnew Hid) as (env' & Hrun & Hch).
        eauto.
    + split; [intros [[_ ?]|[? _]]; done|]. intros _. apply Hsame.
      unfold handle_change. by rewrite decide_True, Hnew.
  - destruct (decide (eventType payload = "DELETE")) as [Hdel|Hdel].
    + destruct (old payload) as [| | |[oldId|]] eqn:Hold; simpl.
      * split; [|intros Hreadable; destruct Hreadable; by right].
        intros _. exists "undefined". unfold handle_change.
        by rewrite decide_False, decide_True, Hold.
      * split; [|intros Hreadable; destruct Hreadable; by right].
        intros _. exists "null". unfold handle_change.
        by rewrite decide_False, decide_True, Hold.
      * split; [intros [[? _]|[_ ?]]; done|]. intros _. apply Hsame.
        unfold handle_change. by rewrite decide_False, decide_True, Hold.
      * split; [intros [[? _]|[_ ?]]; done|]. intros _.
        destruct (handle_change_delete c payload oldId env Hdel Hold) as (env' & Hrun & Hch).
        eauto.
      * split; [intros [[? _]|[_ ?]]; done|]. intros _. apply Hsame.
        unfold handle_change. by rewrite decide_False, decide_True, Hold.
    + split; [intros [[? _]|[? _]]; done|]. intros _. apply Hsame.
      unfold handle_change. by rewrite decide_False, decide_False.
Qed.

(** X18. The realtime callback rejects on exactly the payloads it cannot
    read, those that pass [isValidPayload] with [null] in the slot their
    event type reads (or nothing under [old]): the rejection is the
    [TypeError] of reading [id] and nothing has changed; on every other
    payload the listener resolves. In every case the replication states,
    the remote store and every collection but its own stay as they were. *)
Theorem listener_rejects_only_unreadable_payloads c congregationId payload env :
  let run := listener (subscribeToChanges c congregationId (handle_change c)) payload env in
  (isValidPayload payload = true ∧ unreadable payload →
   ∃ value, run = (env, Rejected (TypeError value))) ∧
  (¬ (isValidPayload payload = true ∧ unreadable payload) → run.2 = Resolved ()) ∧
  replicationStates run.1 = replicationStates env ∧
  remote run.1 = remote env ∧
  ∀ c', c' ≠ c → db run.1 c' = db env c'.
Proof.
  intros run. unfold run, subscribeToChanges; simpl.
  destruct (handle_change_run c payload env) as [Hrejects Hresolves].
  destruct (isValidPayload payload) eqn:Hvalid; [|by repeat split; try intros [? _]].
  destruct (decide (unreadable payload)) as [Hbad|Hgood].
  - destruct (Hrejects Hbad) as [value Hrun]. rewrite Hrun.
    split; [eauto|]. split; [intros Hno; destruct Hno; by split|done].
  - destruct (Hresolves Hgood) as (env' & g & Hrun & Hstates & Hremote & _ & Hother).
    rewrite Hrun. split; [by intros [_ ?]|done].
Qed.

(** X19. Malformed payloads are dropped: on a payload [isValidPayload]
    refuses, on an insert or update whose record has no non-empty string
    [id] and on a delete whose old record has no string [id], the listener
    resolves and changes nothing at all. *)
Theorem malformed_payload_is_dropped c congregationId payload env :
  malformed payload →
  listener (subscribeToChanges c congregationId (handle_change c)) payload env
  = (env, Resolved ()).
Proof.
  intros Hbad. unfold subscribeToChanges; simpl.
  destruct (isValidPayload payload) eqn:Hvalid; [|done].
  destruct Hbad as [Hinvalid|[[Hev Hnew]|[Hev Hold]]]; [congruence| |].
  - unfold handle_change. rewrite decide_True by done.
    destruct Hnew as [->|[->|(doc & -> & Hid)]]; [done..|].
    simpl. by rewrite decide_True.
  - unfold handle_change. rewrite decide_False by (rewrite Hev; intros [?|?]; done).
    rewrite decide_True by done. by destruct Hold as [->| ->].
Qed.

(** X20. An insert event for an id absent locally stores the document as it
    came, and a delete event for that id then restores the collection. *)
Theorem insert_event_then_delete_event c congregationId doc env :
  db env c !! id doc = None → id doc ≠ "" →
  let sub := subscribeToChanges c congregationId (handle_change c) in
  let inserted :=
    (listener sub {| eventType := "INSERT"; new := AnObject (Some doc);
                     old := AnObject None |} env).1 in
  let deleted :=
    (listener sub {| eventType := "DELETE"; new := AnObject None;
                     old := AnObject (Some (id doc)) |} inserted).1 in
  db inserted c !! id doc = Some doc ∧ db deleted c = db env c.
Proof.
  intros Hfree Hid sub inserted deleted.
  destruct (handle_change_upsert c
              {| eventType := "INSERT"; new := AnObject (Some doc); old := AnObject None |}
              doc env) as (env1 & Hrun1 & _ & _ & Hdb1 & _); [by left|done|done|].
  destruct (handle_change_delete c
              {| eventType := "DELETE"; new := AnObject None;
                 old := AnObject (Some (id doc)) |} (id doc) env1)
    as (env2 & Hrun2 & _ & _ & Hdb2 & _); [done|done|].
  assert (inserted = env1) as ->.
  { unfold inserted, sub, subscribeToChanges; simpl. by rewrite Hrun1. }
  assert (deleted = env2) as ->.
  { unfold deleted, sub, subscribeToChanges; simpl. by rewrite Hrun2. }
  rewrite Hdb2, Hdb1. unfold apply_upsert_event. rewrite Hfree.
  split; [apply lookup_insert_eq|by apply delete_insert_id].
Qed.

Lemma deliver_other_table c congregationId callback change env :
  change_table change ≠ c →
  deliver (subscribeToChanges c congregationId callback) change env = (env, Resolved ()).
Proof.
  intros Hne. unfold deliver. rewrite decide_False; [done|]. by intros [? _].
Qed.

Lemma deliver_invalid c congregationId callback change env :
  isValidPayload (change_payload change) = false →
  deliver (subscribeToChanges c congregationId callback) change env = (env, Resolved ()).
Proof.
  intros Hinvalid. unfold deliver. case_decide; [|done].
  unfold subscribeToChanges; cbn [listener]. by rewrite Hinvalid.
Qed.

(** X21. With realtime enabled, a change reaches the handler of its own
    table once, and only when it belongs to the tenant of the session and
    its payload is valid; with realtime disabled no change is handled. *)
Theorem broadcast_reaches_one_handler congregationId change env :
  broadcast (initializeReplication congregationId true) change env
  = (if decide (change_tenant change = congregationId)
     then if isValidPayload (change_payload change)
          then handle_change (change_table change) (change_payload change) env
          else (env, Resolved ())
     else (env, Resolved ())) ∧
  broadcast (initializeReplication congregationId false) change env = (env, Resolved ()).
Proof.
  split; [|done].
  unfold initializeReplication. cbn [fmap list_fmap broadcast]. unfold both, ret.
  destruct (decide (change_tenant change = congregationId)) as [Htenant|Htenant].
  - destruct (isValidPayload (change_payload change)) eqn:Hvalid.
    + destruct (change_table change) eqn:Htable.
      * rewrite (deliver_matching territories) by done.
        destruct (handle_change territories (change_payload change) env) as [env' r].
        rewrite !deliver_other_table by (by rewrite Htable). by destruct r as [[]|e].
      * rewrite (deliver_other_table territories) by (by rewrite Htable).
        rewrite (deliver_matching houses) by done.
        destruct (handle_change houses (change_payload change) env) as [env' r].
        rewrite !deliver_other_table by (by rewrite Htable). by destruct r as [[]|e].
      * rewrite !deliver_other_table by (by rewrite Htable).
        rewrite (deliver_matching assignments) by done.
        by destruct (handle_change assignments (change_payload change) env) as [env' [[]|e]].
    + by rewrite !deliver_invalid.
  - by rewrite !deliver_other_tenant.
Qed.

(** ** The store handle over a session *)

Lemma store_call_ranked st call :
  ranked st →
  ranked (store_call st call).1 ∧
  RxDB.created st ≤ RxDB.created (store_call st call).1 ∧
  ∀ database, (store_call st call).2 = Resolved (Some database) →
              RxDB.instance database < RxDB.created (store_call st call).1.
Proof.
  intros Hranked. unfold ranked in *.
  destruct call as [storage congregationId|destroyed|destroyed]; simpl;
    unfold RxDB.initDatabase, RxDB.resetDatabase, RxDB.closeDatabase;
    destruct (RxDB.dbPromise st) as [[database|e]|] eqn:Hopen; simpl;
    try destruct storage as [e'|]; try destruct destroyed as [e'|]; simpl;
    rewrite ?Hopen;
    (split; [|split; [lia|]]); intros d Hd; simplify_eq; simpl;
    first [lia | by apply Hranked | specialize (Hranked _ eq_refl); lia].
Qed.

Lemma store_session_ranked calls st :
  ranked st →
  ranked (store_session calls st).1 ∧
  RxDB.created st ≤ RxDB.created (store_session calls st).1 ∧
  ∀ database, database ∈ handed_out (store_session calls st).2 →
              RxDB.instance database < RxDB.created (store_session calls st).1.
Proof.
  revert st. induction calls as [|call calls IH]; intros st Hranked.
  - simpl. split; [done|]. split; [done|]. intros d Hd. by apply elem_of_nil in Hd.
  - simpl. destruct (store_call_ranked st call Hranked) as (Hr1 & Hle1 & Hhanded).
    destruct (store_call st call) as [st1 outcome]. simpl in *.
    destruct (IH st1 Hr1) as (Hr2 & Hle2 & Hlater).
    destruct (store_session calls st1) as [st2 later]. simpl in *.
    split; [done|]. split; [lia|].
    intros d Hd. unfold handed_out in *.
    destruct outcome as [[database|]|e]; simpl in Hd; [|by apply Hlater..].
    apply elem_of_cons in Hd as [->|Hd]; [|by apply Hlater].
    specialize (Hhanded database eq_refl). lia.
Qed.

Lemma ranked_initial : ranked RxDB.initial.
Proof. by intros d [=]. Qed.

(** X22. Closing (or resetting) is what switches stores, when it succeeds.
    After any session of calls, a close or a reset resolves exactly when no
    promise is stored, or the stored open succeeded and [destroy] answers;
    it then leaves [getDatabase] returning [null], and the next
    [initDatabase] on a storage that answers creates an instance under the
    name of the tenant it is given, one that was never handed out before,
    which [getDatabase] then returns. A close or a reset that rejects
    leaves the module as it was. *)
Theorem reopen_after_close_is_fresh calls destroyed congregationId :
  let st := (store_session calls RxDB.initial).1 in
  let handed := handed_out (store_session calls RxDB.initial).2 in
  Forall (λ closed : RxDB.Module_state * Completion (),
            (closed.2 = Resolved () ↔
             RxDB.dbPromise st = None ∨
             ((∃ database, RxDB.dbPromise st = Some (Resolved database)) ∧
              destroyed = None)) ∧
            (closed.2 = Resolved () →
             getDatabase closed.1 = Resolved None ∧
             ∃ database,
               RxDB.initDatabase None congregationId closed.1
               = ({| RxDB.dbPromise := Some (Resolved database);
                     RxDB.created := S (RxDB.created st) |}, Resolved database) ∧
               RxDB.name database = "territory_mapper_" +:+ congregationId ∧
               (database ∉ handed) ∧
               getDatabase (RxDB.initDatabase None congregationId closed.1).1
               = Resolved (Some database)) ∧
            (∀ e, closed.2 = Rejected e → closed.1 = st))
         [RxDB.closeDatabase destroyed st; RxDB.resetDatabase destroyed st].
Proof.
  intros st handed.
  destruct (store_session_ranked calls RxDB.initial ranked_initial) as (_ & _ & Hhanded).
  fold st handed in Hhanded.
  assert (Hfresh : ∀ closed,
             RxDB.dbPromise closed = None → RxDB.created closed = RxDB.created st →
             getDatabase closed = Resolved None ∧
             ∃ database,
               RxDB.initDatabase None congregationId closed
               = ({| RxDB.dbPromise := Some (Resolved database);
                     RxDB.created := S (RxDB.created st) |}, Resolved database) ∧
               RxDB.name database = "territory_mapper_" +:+ congregationId ∧
               (database ∉ handed) ∧
               getDatabase (RxDB.initDatabase None congregationId closed).1
               = Resolved (Some database)).
  { intros closed Hnone Hcreated. unfold getDatabase at 1. rewrite Hnone. split; [done|].
    unfold RxDB.initDatabase. rewrite Hnone, Hcreated. simpl.
    eexists. split; [reflexivity|]. split; [done|]. split; [|done].
    intros Hin. apply Hhanded in Hin. simpl in Hin. lia. }
  repeat apply Forall_cons_2; [| |apply Forall_nil_2].
  - unfold RxDB.closeDatabase.
    destruct (RxDB.dbPromise st) as [[database|e]|] eqn:Hopen;
      [destruct destroyed as [e|]|..]; simpl.
    + split; [split; [done|intros [?|[_ ?]]; done]|]. split; [done|]. done.
    + split; [split; [intros _; right; eauto|done]|]. split; [|done].
      intros _. by apply Hfresh.
    + split; [split; [done|intros [?|[[? ?] _]]; done]|]. split; [done|]. done.
    + split; [split; [intros _; by left|done]|]. split; [|done].
      intros _. by apply Hfresh.
  - unfold RxDB.resetDatabase, RxDB.closeDatabase.
    destruct (RxDB.dbPromise st) as [[database|e]|] eqn:Hopen;
      [destruct destroyed as [e|]|..]; simpl.
    + split; [split; [done|intros [?|[_ ?]]; done]|]. split; [done|]. done.
    + split; [split; [intros _; right; eauto|done]|]. split; [|done].
      intros _. by apply Hfresh.
    + split; [split; [done|intros [?|[[? ?] _]]; done]|]. split; [done|]. done.
    + split; [split; [intros _; by left|done]|]. split; [|done].
      intros _. by apply Hfresh.
Qed.

(** X26. A failed open is never retried. Once [dbPromise] holds the promise
    of an open that failed, every later call on the module rejects with the
    error of that open: [initDatabase] for any tenant and whatever the
    storage would now answer, [closeDatabase], [resetDatabase] and
    [getDatabase]; the module stays as it is. *)
Theorem failed_open_is_never_retried calls e st :
  RxDB.dbPromise st = Some (Rejected e) →
  (store_session calls st).1 = st ∧
  Forall (λ outcome, outcome = Rejected e) (store_session calls st).2 ∧
  getDatabase st = Rejected e.
Proof.
  intros Hfailed.
  assert (Hcall : ∀ call, store_call st call = (st, Rejected e)).
  { intros [storage congregationId|destroyed|destroyed]; simpl;
      unfold RxDB.initDatabase, RxDB.resetDatabase, RxDB.closeDatabase;
      by rewrite Hfailed. }
  split; [|split].
  - induction calls as [|call calls IH]; [done|].
    simpl. rewrite Hcall. by destruct (store_session calls st).
  - induction calls as [|call calls IH]; [by apply Forall_nil_2|].
    simpl. rewrite Hcall. destruct (store_session calls st) as [st' later]; simpl in *.
    by apply Forall_cons_2.
  - unfold getDatabase. by rewrite Hfailed.
Qed.

(** ** The logger *)

(** X23. The logger filters by severity: in every runtime an error is
    logged, and a level that is logged carries every more severe level with
    it. *)
Theorem shouldLog_is_monotone rt :
  Logger.shouldLog rt Logger.error = true ∧
  ∀ level severer,
    Logger.indexOf level ≤ Logger.indexOf severer →
    Logger.shouldLog rt level = true → Logger.shouldLog rt severer = true.
Proof.
  destruct rt as [server prod [configured|]]; unfold Logger.shouldLog; simpl.
  - split.
    + destruct server, prod; try done; apply bool_decide_eq_true;
        destruct configured; simpl; lia.
    + intros level severer Hle. destruct server.
      * destruct prod; [|done]. destruct level, severer; simpl in *; try done; lia.
      * rewrite !bool_decide_eq_true. lia.
  - split; [by destruct server, prod|].
    intros level severer Hle.
    destruct server, prod; try done; destruct level, severer; simpl in *; try done; lia.
Qed.

(** ** The manual sync *)

Lemma total_pulled_insert key result results :
  results !! key = None →
  total_pulled (<[key := result]> results) = total_pulled results + pulled result.
Proof.
  intros Hfree. unfold total_pulled.
  rewrite map_fold_insert_L; [done| |done]. intros. lia.
Qed.

Lemma total_pushed_insert key result results :
  results !! key = None →
  total_pushed (<[key := result]> results) = total_pushed results + pushed result.
Proof.
  intros Hfree. unfold total_pushed.
  rewrite map_fold_insert_L; [done| |done]. intros. lia.
Qed.

Section Manual_sync_facts.

Variable Date_parse : string → option Z.
Variable timestamptz : string → option Z.

Lemma syncAll_eq congregationId env :
  let sync := syncCollection Date_parse timestamptz in
  let first := sync territories congregationId env in
  let second := sync houses congregationId first.1 in
  let third := sync assignments congregationId second.1 in
  syncAll Date_parse timestamptz congregationId env
  = (third.1,
     Resolved (<["assignments" := recorded_result third.2]>
                 (<["houses" := recorded_result second.2]>
                    (<["territories" := recorded_result first.2]> ∅)))).
Proof.
  intros sync first second third. unfold syncAll; simpl.
  erewrite bind_run by apply try_catch_syncCollection.
  erewrite bind_run by apply try_catch_syncCollection.
  erewrite bind_run by apply try_catch_syncCollection.
  reflexivity.
Qed.

(** X24. A manual sync with a database and a tenant always resolves, even
    when every collection failed to sync: its totals are the sums of the
    three recorded results, and the hook ends not syncing, with no error
    and with [lastSync] set to the time the sync ended. *)
Theorem manual_sync_always_resolves now tenant hook env :
  tenant ≠ "" →
  let sync_one := syncCollection Date_parse timestamptz in
  let first := sync_one territories tenant env in
  let second := sync_one houses tenant first.1 in
  let third := sync_one assignments tenant second.1 in
  let run := sync Date_parse timestamptz now true (Some tenant) hook env in
  ∃ summary,
    run.2 = Resolved summary ∧
    UseSync.pulled summary
    = pulled (recorded_result first.2) + pulled (recorded_result second.2)
      + pulled (recorded_result third.2) ∧
    UseSync.pushed summary
    = pushed (recorded_result first.2) + pushed (recorded_result second.2)
      + pushed (recorded_result third.2) ∧
    run.1.2 = {| UseSync.isSyncing := false; UseSync.lastSync := Some now;
                 UseSync.pendingChanges := 0; UseSync.error := None |} ∧
    run.1.1 = third.1.
Proof.
  intros Htenant sync_one first second third run.
  unfold run, sync. rewrite truthy_nonempty by done.
  rewrite syncAll_eq. fold sync_one first second third. cbv zeta.
  eexists. split; [reflexivity|]. simpl.
  rewrite !total_pulled_insert, !total_pushed_insert by done.
  unfold total_pulled, total_pushed. rewrite !map_fold_empty. by repeat split.
Qed.

End Manual_sync_facts.

(** ** Operations on a document that is not stored *)

(** X25. Updating or deleting an id that is not stored is not an error: the
    hook operations resolve and change nothing, and so does the delete
    event of the realtime feed. *)
Theorem missing_document_is_left_alone c congregationId key updates env :
  db env c !! key = None →
  updateDocument c true key updates env = (env, Resolved ()) ∧
  deleteDocument c true key env = (env, Resolved ()) ∧
  listener (subscribeToChanges c congregationId (handle_change c))
    {| eventType := "DELETE"; new := AnObject None; old := AnObject (Some key) |} env
  = (env, Resolved ()).
Proof.
  intros Hfree. split; [|split].
  - unfold updateDocument, bind, findOne, gets. by rewrite Hfree.
  - unfold deleteDocument, bind, findOne, gets. by rewrite Hfree.
  - simpl. unfold handle_change. simpl.
    unfold try_catch, bind, findOne, gets. by rewrite Hfree.
Qed.

(** * The further properties on sample data *)

Ltac by_evaluation := vm_compute; first [reflexivity | discriminate | exact I].

Ltac no_duplicates :=
  match goal with |- ?P => apply (@bool_decide_unpack P _) end; vm_compute; exact I.

(** The second pull of the newer remote copy of [t1] changes nothing. *)
Lemma pull_twice_sample :
  db (pullFromSupabase Sample.clock Sample.clock territories "A" None
        (pullFromSupabase Sample.clock Sample.clock territories "A" None
           Sample.env_remote_newer).1).1 territories
  = db (pullFromSupabase Sample.clock Sample.clock territories "A" None
          Sample.env_remote_newer).1 territories.
Proof.
  refine (pull_twice_is_pull_once Sample.clock Sample.clock territories "A" None
            Sample.env_remote_newer eq_refl _).
  no_duplicates.
Defined.

(** The row [a1] of tenant A, absent locally, is inserted by a pull for A. *)
Lemma pull_inserts_sample :
  db (pullFromSupabase Sample.clock Sample.clock territories "A" None
        Sample.env_two_tenants).1 territories !! "a1"
  = Some (Sample.doc "a1" Sample.jan3 "A").
Proof.
  refine (pull_inserts_absent_documents Sample.clock Sample.clock territories "A" None
            Sample.env_two_tenants (Sample.doc "a1" Sample.jan3 "A") eq_refl _ _ eq_refl).
  - no_duplicates.
  - vm_compute. apply list_elem_of_here.
Defined.

(** The pull that fetched [t1] as of [jan2] moved the cursor to [jan2], and
    a pull bounded by [jan2] does not fetch [t1] again. *)
Lemma pull_is_incremental_sample :
  let env' := (pullFromSupabase Sample.clock Sample.clock territories "A" None
                 Sample.env_remote_newer).1 in
  cursor env' territories = Some Sample.jan2 ∧
  Sample.doc "t1" Sample.jan2 "A"
  ∉ select_rows Sample.clock (tables (remote env') territories) "A" (Some Sample.jan2).
Proof.
  destruct (pull_is_incremental Sample.clock Sample.clock territories "A" None
              Sample.env_remote_newer Sample.jan2 eq_refl eq_refl) as [Hcursor Hnot].
  split; [exact Hcursor|].
  apply Hnot. vm_compute. apply list_elem_of_here.
Defined.

(** The pull of [houses] is rejected with the network error. *)
Lemma pull_failure_sample :
  (pullFromSupabase Sample.clock Sample.clock houses "A" None Sample.env_houses_down).2
  = Rejected (ErrorObject "network").
Proof.
  exact (proj1 (pull_failure_is_recorded Sample.clock Sample.clock houses "A" None
                  Sample.env_houses_down (ErrorObject "network") eq_refl)).
Defined.

(** The error recorded by an earlier failure is still there after a pull
    and after a push that succeeded. *)
Lemma success_keeps_error_sample :
  error (state_of (pullFromSupabase Sample.clock Sample.clock territories "A" None
                     Scenario.env_failed_before).1 territories)
  = Some "network" ∧
  error (state_of (pushToSupabase Sample.clock territories "A"
                     Scenario.env_failed_before).1 territories)
  = Some "network".
Proof.
  exact (success_keeps_recorded_error Sample.clock Sample.clock territories "A" None
           Scenario.env_failed_before eq_refl eq_refl).
Defined.

(** The refused upsert of [t1] is rethrown and recorded. *)
Lemma push_failure_sample :
  let run := pushToSupabase Sample.clock territories "A" Scenario.env_upsert_refused in
  run.2 = Rejected (ErrorObject "denied") ∧
  error (state_of run.1 territories) = Some "denied".
Proof.
  destruct (push_failure_is_recorded Sample.clock territories "A"
              Scenario.env_upsert_refused (ErrorObject "denied") eq_refl)
    as (Hrejected & _ & _ & _ & Herror & _).
  - by_evaluation.
  - split; [exact Hrejected | exact Herror].
Defined.

(** After the push of the newer local copy of [t1], the remote table still
    has pairwise distinct ids. *)
Lemma push_upserts_sample :
  NoDup (id <$> tables (remote (pushToSupabase Sample.clock territories "A"
                                  Sample.env_local_newer).1) territories).
Proof.
  refine (proj1 (push_upserts_by_primary_key Sample.clock territories "A"
                   Sample.env_local_newer eq_refl _)).
  no_duplicates.
Defined.

(** The remote row [h1] survives a sync in which [houses] cannot be read. *)
Lemma syncAll_keeps_rows_sample :
  "h1" ∈ id <$> tables (remote (syncAll Sample.clock Sample.clock "A"
                                  Sample.env_houses_down).1) houses.
Proof.
  refine (syncAll_keeps_remote_rows Sample.clock Sample.clock "A" Sample.env_houses_down
            houses (Sample.doc "h1" Sample.jan1 "A") _).
  simpl. apply list_elem_of_here.
Defined.

(** Adding [t2] and deleting it again leaves [territories] as it was. *)
Lemma add_then_delete_sample :
  db (deleteDocument territories true "t2"
        (addDocument territories true (Sample.doc "t2" Sample.jan1 "A")
           Sample.env_local_edit).1).1 territories
  = db Sample.env_local_edit territories.
Proof.
  exact (proj2 (proj2 (proj2
           (add_then_delete_restores territories (Sample.doc "t2" Sample.jan1 "A")
              Sample.env_local_edit eq_refl)))).
Defined.

(** [t1], deleted locally, is back after the next sync, as the remote has
    it. *)
Lemma deleted_document_returns_sample :
  let deleted := (deleteDocument territories true "t1" Sample.env_remote_newer).1 in
  db deleted territories !! "t1" = None ∧
  db (syncCollection Sample.clock Sample.clock territories "A" deleted).1 territories !! "t1"
  = Some (Sample.doc "t1" Sample.jan2 "A").
Proof.
  refine (deleted_document_returns_on_sync Sample.clock Sample.clock territories "A"
            Sample.env_remote_newer (Sample.doc "t1" Sample.jan2 "A")
            eq_refl _ _ eq_refl eq_refl).
  - no_duplicates.
  - simpl. apply list_elem_of_here.
Defined.

(** The house [h1], renamed on [jan3] while the cursor of [houses] is at
    [jan2], is stamped [jan3] and sent by the next push. *)
Lemma edited_house_sample :
  let edited := (updateHouse Sample.jan3 true "h1" Scenario.rename Scenario.env_house).1 in
  let house := apply_updates (stamped Sample.jan3 Scenario.rename)
                 (Sample.doc "h1" Sample.jan1 "A") in
  db edited houses !! "h1" = Some house ∧
  ∃ batch,
    requests (remote (pushToSupabase Sample.clock houses "A" edited).1)
    = requests (remote Scenario.env_house) ++ [ReqUpsert houses batch] ∧
    to_record house ∈ batch.
Proof.
  refine (edited_house_is_pushed Sample.clock Sample.jan3 "A" "h1"
            Scenario.rename (Sample.doc "h1" Sample.jan1 "A") Scenario.env_house
            eq_refl eq_refl _ _).
  - discriminate.
  - intros s Hs. vm_compute in Hs. injection Hs as <-. reflexivity.
Defined.

(** The territory [t1], renamed without a new [updated_at] while the cursor
    is at [jan2], is not selected by the next push. *)
Lemma unstamped_edit_sample :
  let edited := (updateDocument territories true "t1" Scenario.rename
                   Scenario.env_territory_synced).1 in
  let territory := apply_updates Scenario.rename (Sample.doc "t1" Sample.jan1 "A") in
  db edited territories !! "t1" = Some territory ∧
  territory ∉ docsToSync Sample.clock (cursor edited territories)
                (local_docs edited territories "A").
Proof.
  exact (unstamped_edit_is_not_pushed Sample.clock territories "A" "t1"
           Scenario.rename (Sample.doc "t1" Sample.jan1 "A") Scenario.env_territory_synced
           Sample.jan2 eq_refl eq_refl eq_refl eq_refl).
Defined.

(** An insert event whose record has no [id] changes nothing. *)
Lemma malformed_payload_sample :
  listener (subscribeToChanges territories "A" (handle_change territories))
    Scenario.insert_without_row Sample.env_local_edit
  = (Sample.env_local_edit, Resolved ()).
Proof.
  refine (malformed_payload_is_dropped territories "A" Scenario.insert_without_row
            Sample.env_local_edit _).
  right; left. split; [by left|]. right; by left.
Defined.

(** The insert event for [t2] stores it, the delete event removes it. *)
Lemma insert_then_delete_sample :
  let sub := subscribeToChanges territories "A" (handle_change territories) in
  let t2 := Sample.doc "t2" Sample.jan1 "A" in
  let inserted :=
    (listener sub {| eventType := "INSERT"; new := AnObject (Some t2);
                     old := AnObject None |} Sample.env_local_edit).1 in
  let deleted :=
    (listener sub {| eventType := "DELETE"; new := AnObject None;
                     old := AnObject (Some "t2") |} inserted).1 in
  db inserted territories !! "t2" = Some t2 ∧
  db deleted territories = db Sample.env_local_edit territories.
Proof.
  refine (insert_event_then_delete_event territories "A" (Sample.doc "t2" Sample.jan1 "A")
            Sample.env_local_edit eq_refl _).
  discriminate.
Defined.

(** A manual sync resolves although [houses] cannot be read. *)
Lemma manual_sync_sample :
  ∃ summary,
    (sync Sample.clock Sample.clock Sample.jan3 true (Some "A")
       {| UseSync.isSyncing := false; UseSync.lastSync := None;
          UseSync.pendingChanges := 2; UseSync.error := None |}
       Sample.env_houses_down).2
    = Resolved summary ∧
    UseSync.pulled summary = 2 ∧ UseSync.pushed summary = 0.
Proof.
  destruct (manual_sync_always_resolves Sample.clock Sample.clock Sample.jan3 "A"
              {| UseSync.isSyncing := false; UseSync.lastSync := None;
                 UseSync.pendingChanges := 2; UseSync.error := None |}
              Sample.env_houses_down)
    as (summary & Hresolved & Hpulled & Hpushed & _).
  - discriminate.
  - exists summary. split; [exact Hresolved|]. split.
    + rewrite Hpulled. by_evaluation.
    + rewrite Hpushed. by_evaluation.
Defined.

(** Renaming or deleting [t9], which is not stored, changes nothing. *)
Lemma missing_document_sample :
  updateDocument territories true "t9" Scenario.rename Sample.env_local_edit
  = (Sample.env_local_edit, Resolved ()) ∧
  deleteDocument territories true "t9" Sample.env_local_edit
  = (Sample.env_local_edit, Resolved ()).
Proof.
  destruct (missing_document_is_left_alone territories "A" "t9" Scenario.rename
              Sample.env_local_edit eq_refl) as (Hupdate & Hdelete & _).
  split; [exact Hupdate | exact Hdelete].
Defined.

(** An update event whose new record is [null] passes the validation and
    makes the callback reject. *)
Lemma unreadable_payload_sample :
  ∃ value,
    listener (subscribeToChanges territories "A" (handle_change territories))
      Scenario.update_with_null Sample.env_local_edit
    = (Sample.env_local_edit, Rejected (TypeError value)).
Proof.
  refine (proj1 (listener_rejects_only_unreadable_payloads territories "A"
                   Scenario.update_with_null Sample.env_local_edit) _).
  split; [reflexivity|]. left. split; [by right|reflexivity].
Defined.

(** The open for tenant A fails: the later open for B, the close and the
    reset all reject with the error of that open. *)
Lemma failed_open_sample :
  Forall (λ outcome, outcome = Rejected (ErrorObject "StorageUnavailable"))
    (store_session [CallInit None "B"; CallClose None; CallReset None]
       (RxDB.initDatabase (Some (ErrorObject "StorageUnavailable")) "A" RxDB.initial).1).2.
Proof.
  exact (proj1 (proj2 (failed_open_is_never_retried
                         [CallInit None "B"; CallClose None; CallReset None]
                         (ErrorObject "StorageUnavailable")
                         (RxDB.initDatabase (Some (ErrorObject "StorageUnavailable")) "A"
                            RxDB.initial).1 eq_refl))).
Defined.
